(** * voc-table-recognition: the PAGE-XML to COCO converter and the scan downloader

    A shallow embedding of [utils/convert_prima_to_coco_rc.py] and
    [utils/download-voc.py], and the properties their specification states.

    Conventions of the embedding.
    - A Python exception is a value [Raise e] of the [result] type; a function
      that cannot raise is a plain function.
    - A Python [dict] is an insertion-ordered association list with unique keys
      ([Dict] below): iteration order is insertion order, as in the language.
    - [float] and [numpy.float64] values are carried as rationals ([Q]).  The
      properties below use of them what rounding leaves intact: which points
      a record holds, how values compare, the sign of a difference or of an
      area.  No equality between computed numbers is claimed.
    - The third-party libraries (BeautifulSoup, ElementTree, shapely, requests,
      imagesize) are modelled at their interface: parsed documents are trees,
      the geometry kernel is a record of operations ([Shapely]), the network
      is a function from URLs to responses. *)

From Stdlib Require Import List String Ascii ZArith QArith Qabs Qminmax Lia Bool Arith Sorted.
Import ListNotations.

Set Implicit Arguments.
Set Warnings "-register-all".

(** ** Python prelude *)

Module Py.

Inductive exn : Type :=
| KeyError | ValueError | IndexError | AttributeError | AssertionError
| SyntaxError | ParseError | HTTPError | FileNotFoundError | FileExistsError
| IsADirectoryError | NotADirectoryError | ConnectionError | TypeError
| SystemExit (code : Z).

Inductive result (A : Type) : Type :=
| Ok (a : A)
| Raise (e : exn).

Arguments Ok {A} a.
Arguments Raise {A} e.

Definition bind {A B : Type} (m : result A) (k : A -> result B) : result B :=
  match m with
  | Ok a => k a
  | Raise e => Raise e
  end.

Definition is_ok {A : Type} (m : result A) : bool :=
  match m with Ok _ => true | Raise _ => false end.

End Py.
Import Py.

Notation "x <- m ;; k" := (Py.bind m (fun x => k))
  (at level 61, m at next level, right associativity).
Notation "' pat <- m ;; k" := (Py.bind m (fun x => match x with pat => k end))
  (at level 61, pat pattern, m at next level, right associativity).

(** *** Insertion-ordered dictionaries *)

Module Dict.
Section Dict.
  Variables (K V : Type).
  Variable eqb : K -> K -> bool.

Definition t := list (K * V).

(** [d.get(k)] *)
Fixpoint get (k : K) (d : t) : option V :=
  match d with
  | [] => None
  | (k', v) :: d' => if eqb k k' then Some v else get k d'
  end.

(** [k in d] *)
Definition mem (k : K) (d : t) : bool :=
  match get k d with Some _ => true | None => false end.

(** [d[k] = v]: an existing key keeps its position, a new key goes last. *)
Fixpoint set (k : K) (v : V) (d : t) : t :=
  match d with
  | [] => [(k, v)]
  | (k', v') :: d' => if eqb k k' then (k', v) :: d' else (k', v') :: set k v d'
  end.

Definition keys (d : t) : list K := map fst d.
End Dict.
End Dict.

(** *** Strings *)

Module Str.

Local Open Scope string_scope.

Fixpoint drop (n : nat) (s : string) : string :=
  match n, s with
  | O, _ => s
  | S n', String _ s' => drop n' s'
  | S _, EmptyString => EmptyString
  end.

Fixpoint take (n : nat) (s : string) : string :=
  match n, s with
  | S n', String c s' => String c (take n' s')
  | _, _ => EmptyString
  end.

Fixpoint rev_acc (s acc : string) : string :=
  match s with
  | EmptyString => acc
  | String c s' => rev_acc s' (String c acc)
  end.

Definition rev (s : string) : string := rev_acc s EmptyString.

(** [s.startswith(p)] *)
Definition startswith (p s : string) : bool := String.prefix p s.

(** [s.endswith(p)] *)
Definition endswith (p s : string) : bool := String.prefix (rev p) (rev s).

(** [s.replace(old, new)] for a non-empty [old]: all non-overlapping
    occurrences, scanning from the left.  [skip] counts the characters of
    an occurrence still to be dropped. *)
Fixpoint replace_from (old new : string) (skip : nat) (s : string) : string :=
  match s with
  | EmptyString => EmptyString
  | String c s' =>
      match skip with
      | S k => replace_from old new k s'
      | O =>
          if String.prefix old s
          then new ++ replace_from old new (String.length old - 1) s'
          else String c (replace_from old new 0 s')
      end
  end.

Definition replace (old new s : string) : string := replace_from old new 0 s.

(** [s.split(sep)] for a non-empty [sep].  [cur] is the piece being read, in
    reverse. *)
Fixpoint split_from (sep : string) (skip : nat) (cur : string) (s : string) : list string :=
  match s with
  | EmptyString => [rev cur]
  | String c s' =>
      match skip with
      | S k => split_from sep k cur s'
      | O =>
          if String.prefix sep s
          then rev cur :: split_from sep (String.length sep - 1) EmptyString s'
          else split_from sep 0 (String c cur) s'
      end
  end.

Definition split (sep s : string) : list string := split_from sep 0 EmptyString s.

(** [c in s] for a character *)
Fixpoint contains_char (c : ascii) (s : string) : bool :=
  match s with
  | EmptyString => false
  | String c' s' => Ascii.eqb c c' || contains_char c s'
  end.

Definition is_digit (c : ascii) : bool :=
  let n := nat_of_ascii c in (48 <=? n)%nat && (n <=? 57)%nat.

(** The blanks that [int] skips around an ASCII literal: the space and the
    characters 9 to 13. *)
Definition is_space (c : ascii) : bool :=
  let n := nat_of_ascii c in
  (n =? 32)%nat || ((9 <=? n)%nat && (n <=? 13)%nat).

Fixpoint lstrip (s : string) : string :=
  match s with
  | String c s' => if is_space c then lstrip s' else s
  | EmptyString => EmptyString
  end.

(** [s] without the blanks at its ends. *)
Definition strip (s : string) : string := rev (lstrip (rev (lstrip s))).

(** [s.isdigit()] on ASCII text: non-empty, decimal digits only. *)
Fixpoint all_digits (s : string) : bool :=
  match s with
  | EmptyString => true
  | String c s' => is_digit c && all_digits s'
  end.

Definition isdigit (s : string) : bool :=
  match s with EmptyString => false | _ => all_digits s end.

(** The digits of an integer literal; a single underscore may separate two
    digits.  [after_digit] tells whether the previous character was a digit. *)
Fixpoint digits_value (s : string) (acc : Z) (after_digit : bool) : option Z :=
  match s with
  | EmptyString => if after_digit then Some acc else None
  | String c s' =>
      if is_digit c
      then digits_value s' (10 * acc + Z.of_nat (nat_of_ascii c - 48)) true
      else if Ascii.eqb c "_" && after_digit
           then match s' with
                | String c' _ => if is_digit c' then digits_value s' acc false else None
                | EmptyString => None
                end
           else None
  end.

(** [int(s)] on ASCII text: surrounding whitespace, an optional sign, decimal
    digits.  Anything else raises [ValueError]. *)
Definition int (s : string) : result Z :=
  let body := strip s in
  let parsed :=
    match body with
    | String "-" r => option_map Z.opp (digits_value r 0 false)
    | String "+" r => digits_value r 0 false
    | _ => digits_value body 0 false
    end in
  match parsed with
  | Some z => Ok z
  | None => Raise ValueError
  end.

End Str.

(** ** The converter: [utils/convert_prima_to_coco_rc.py] *)

Module Converter.

Local Open Scope string_scope.

(** A coordinate pair of a numpy array of shape (n, 2). *)
Definition point : Type := (Q * Q)%type.

(** *** The parsed annotation document

    A [<Coords>] element carries its polygon either in a [points] attribute
    (["x,y x,y ..."]) or in [<Point x= y=>] children; the fields hold the
    numbers the source reads from each with [float].  [cell.Coords] is
    [None] for a cell without such an element.  The attributes of a cell
    stay text: the source reads them with [int]. *)
Record Coords : Type := {
  points : option (list point);
  Point : list point
}.

Record TableCell : Type := {
  attrs : list (string * string);
  cell_Coords : option Coords
}.

(** [item.find_all('TableCell')], in document order. *)
Record TableRegion : Type := {
  TableCells : list TableCell
}.

(** [anno.find_all('TableRegion')], in document order. *)
Definition soup : Type := list TableRegion.

(** [cell[key]] *)
Definition getitem (key : string) (cell : TableCell) : result string :=
  match Dict.get String.eqb key (attrs cell) with
  | Some v => Ok v
  | None => Raise KeyError
  end.

Definition cvt_coords_to_array (obj : option Coords) : result (list point) :=
  match obj with
  | None => Raise AttributeError
  | Some obj =>
      match points obj with
      | Some pts => Ok pts
      | None =>
          match Point obj with
          | _ :: _ => Ok (Point obj)
          | [] => Ok []
          end
      end
  end.

(** *** numpy on one-dimensional arrays *)

(** [np.roll(a, 1)] *)
Definition roll1 (a : list Q) : list Q :=
  match a with
  | [] => []
  | _ => last a 0 :: removelast a
  end.

(** [np.dot(a, b)] *)
Fixpoint dot (a b : list Q) : Q :=
  match a, b with
  | x :: a', y :: b' => x * y + dot a' b'
  | _, _ => 0
  end.

(** [a.min()], [a.max()]: a [ValueError] on an empty array. *)
Definition array_min (a : list Q) : result Q :=
  match a with
  | [] => Raise ValueError
  | x :: a' => Ok (fold_left Qmin a' x)
  end.

Definition array_max (a : list Q) : result Q :=
  match a with
  | [] => Raise ValueError
  | x :: a' => Ok (fold_left Qmax a' x)
  end.

(** [pts.flatten().tolist()] *)
Fixpoint flatten (pts : list point) : list Q :=
  match pts with
  | [] => []
  | (x, y) :: pts' => x :: y :: flatten pts'
  end.

Definition cal_ployarea (pts : list point) : Q :=
  let x := map fst pts in
  let y := map snd pts in
  (1 # 2) * Qabs (dot x (roll1 y) - dot y (roll1 x)).

(** *** Categories *)

Record category : Type := {
  supercategory : string;
  cat_id : Z;
  name : string
}.

Definition find_categories (categories : list category) (nm : string) : result Z :=
  match map cat_id (filter (fun val => String.eqb (name val) nm) categories) with
  | i :: _ => Ok i
  | [] => Raise IndexError
  end.

Definition _create_category (schema : Z) : result (list category * Dict.t string Z) :=
  if (schema =? 0)%Z then
    let categories :=
      [ {| supercategory := "layout"; cat_id := 1; name := "TableRow" |};
        {| supercategory := "layout"; cat_id := 2; name := "TableColumn" |} ] in
    r <- find_categories categories "TableRow" ;;
    c <- find_categories categories "TableColumn" ;;
    Ok (categories,
        Dict.set String.eqb "TableColumn" c (Dict.set String.eqb "TableRow" r []))
  else Raise TypeError.

Definition _categories : list category :=
  match _create_category 0 with Ok (c, _) => c | Raise _ => [] end.

Definition _categories_conversion : Dict.t string Z :=
  match _create_category 0 with Ok (_, c) => c | Raise _ => [] end.

(** *** Grouping *)

Definition groups : Type := Dict.t Z (list TableCell).

(** [if k not in d: d[k] = []] then [d[k].append(cell)] *)
Definition append_to_group (k : Z) (cell : TableCell) (d : groups) : groups :=
  let d := if negb (Dict.mem Z.eqb k d) then Dict.set Z.eqb k [] d else d in
  match Dict.get Z.eqb k d with
  | Some l => Dict.set Z.eqb k (l ++ [cell])%list d
  | None => d
  end.

Fixpoint group_loop (cells : list TableCell) (rows columns : groups)
  : result (groups * groups) :=
  match cells with
  | [] => Ok (rows, columns)
  | cell :: cells' =>
      row_text <- getitem "row" cell ;;
      row_idx <- Str.int row_text ;;
      col_text <- getitem "col" cell ;;
      col_idx <- Str.int col_text ;;
      group_loop cells' (append_to_group row_idx cell rows)
                        (append_to_group col_idx cell columns)
  end.

Definition group_cells_by_row_and_column (cells : list TableCell)
  : result (groups * groups) :=
  group_loop cells [] [].

(** *** The geometry library

    What the source uses of shapely: the constructor [Polygon] (which raises
    [ValueError] on coordinates that make no ring), [is_valid],
    [make_valid], [unary_union], and of a geometry its [geom_type], the
    coordinates of its exterior ring, its parts and its area. *)
Record Shapely : Type := {
  geometry : Type;
  Polygon : list point -> result geometry;
  is_valid : geometry -> bool;
  make_valid : geometry -> geometry;
  unary_union : list geometry -> geometry;
  geom_type : geometry -> string;
  exterior_coords : geometry -> list point;
  geoms : geometry -> list geometry;
  geom_area : geometry -> Q
}.

Section Boundaries.
  Variable S : Shapely.

(** The body of the inner loop for a cell that has at least 3 points. *)
Definition cell_polygon (coords : list point) : result (geometry S) :=
  polygon <- Polygon S coords ;;
  Ok (if negb (is_valid S polygon) then make_valid S polygon else polygon).

Fixpoint cell_polygons (cell_list : list TableCell) : result (list (geometry S)) :=
  match cell_list with
  | [] => Ok []
  | cell :: rest =>
      coords <- cvt_coords_to_array (cell_Coords cell) ;;
      if (3 <=? List.length coords)%nat then
        polygon <- cell_polygon coords ;;
        polygons <- cell_polygons rest ;;
        Ok (polygon :: polygons)
      else cell_polygons rest
  end.

(** [max(geoms, key=lambda p: p.area)]: the first part of largest area. *)
Fixpoint max_area_from (best : geometry S) (l : list (geometry S)) : geometry S :=
  match l with
  | [] => best
  | p :: l' =>
      max_area_from (if Qle_bool (geom_area S p) (geom_area S best) then best else p) l'
  end.

Definition max_area (l : list (geometry S)) : result (geometry S) :=
  match l with
  | [] => Raise ValueError
  | p :: l' => Ok (max_area_from p l')
  end.

Fixpoint calculate_group_boundaries (group : groups) : result (list (Z * list point)) :=
  match group with
  | [] => Ok []
  | (group_idx, cell_list) :: rest =>
      polygons <- cell_polygons cell_list ;;
      match polygons with
      | [] => calculate_group_boundaries rest
      | _ :: _ =>
          let union_polygon := unary_union S polygons in
          if String.eqb (geom_type S union_polygon) "Polygon" then
            let boundary_pts := exterior_coords S union_polygon in
            boundaries <- calculate_group_boundaries rest ;;
            Ok ((group_idx, boundary_pts) :: boundaries)
          else if String.eqb (geom_type S union_polygon) "MultiPolygon" then
            largest_polygon <- max_area (geoms S union_polygon) ;;
            let boundary_pts := exterior_coords S largest_polygon in
            boundaries <- calculate_group_boundaries rest ;;
            Ok ((group_idx, boundary_pts) :: boundaries)
          else calculate_group_boundaries rest
      end
  end.
End Boundaries.

(** *** Output records *)

Record image_info : Type := {
  file_name : string;
  height : Z;
  width : Z;
  img_id : nat
}.

Record annotation : Type := {
  segmentation : list (list Q);
  area : Q;
  iscrowd : Z;
  image_id : nat;
  bbox : list Q;
  category_id : Z;
  ann_id : nat
}.

Record info_block : Type := {
  description : string;
  version : string;
  year : Z;
  contributor : string;
  date_created : string
}.

Definition _info : info_block :=
  {| description := "Dutch East India Company table recognition dataset";
     version := "1.0";
     year := 2025;
     contributor := "Gerhard de Kok";
     date_created := "2025/01/06" |}.

Record coco : Type := {
  info : info_block;
  licenses : list unit;
  images : list image_info;
  annotations : list annotation;
  categories : list category
}.

(** [pts] is an array of shape (n, 2); the converter calls the function
    with at least three points. *)
Definition _anno_template (anno_id image_id : nat) (pts : list point) (obj_tag : string)
  : result annotation :=
  x_1 <- array_min (map fst pts) ;;
  x_2 <- array_max (map fst pts) ;;
  y_1 <- array_min (map snd pts) ;;
  y_2 <- array_max (map snd pts) ;;
  let height := y_2 - y_1 in
  let width := x_2 - x_1 in
  match Dict.get String.eqb obj_tag _categories_conversion with
  | None => Raise KeyError
  | Some cat =>
      Ok {| segmentation := [flatten pts];
            area := cal_ployarea pts;
            iscrowd := 0;
            image_id := image_id;
            bbox := [x_1; y_1; width; height];
            category_id := cat;
            ann_id := anno_id |}
  end.

(** *** The dataset on disk

    The two directories the class reads: [XML/] with the parsed content of
    each file, in the order [glob] lists them, and [Images/] with the size
    [imagesize.get] reports for each file. *)
Record Disk : Type := {
  XML : list (string * soup);
  Images : list (string * (Z * Z))
}.

(** [glob(os.path.join(anno_path, '*.xml'))]: [glob] skips dot-files. *)
Definition find_all_annotation_files (d : Disk) : list string :=
  filter (fun n => Str.endswith ".xml" n && negb (Str.startswith "." n))
         (map fst (XML d)).

Definition replacer (s : string) : string :=
  Str.replace ".xml" "" (Str.replace "pc-" "" s).

Definition find_all_image_ids (d : Disk) : list string :=
  map replacer (find_all_annotation_files d).

Record PRIMADataset : Type := {
  disk : Disk;
  _ids : list string
}.

(** [PRIMADataset(base_path)] *)
Definition __init__ (d : Disk) : PRIMADataset :=
  {| disk := d; _ids := find_all_image_ids d |}.

Definition load_annotation (self : PRIMADataset) (idx : nat) : result soup :=
  match nth_error (_ids self) idx with
  | None => Raise IndexError
  | Some image_id =>
      match Dict.get String.eqb ("pc-" ++ image_id ++ ".xml") (XML (disk self)) with
      | Some anno => Ok anno
      | None =>
          match Dict.get String.eqb (image_id ++ ".xml") (XML (disk self)) with
          | Some anno => Ok anno
          | None => Raise AssertionError
          end
      end
  end.

Definition _image_template (image_id : nat) (image_name : string) (size : Z * Z)
  : image_info :=
  let '(width, height) := size in
  {| file_name := image_name; height := height; width := width; img_id := image_id |}.

(** The loop state of [convert_to_COCO]. *)
Record state : Type := {
  all_image_infos : list image_info;
  all_anno_infos : list annotation;
  anno_id : nat
}.

Section Convert.
  Variable S : Shapely.

(** [for _, pts in boundaries: if len(pts) >= 3: ...] for one tag. *)
Fixpoint emit_boundaries (idx : nat) (obj_tag : string)
         (boundaries : list (Z * list point)) (annos : list annotation) (next : nat)
  : result (list annotation * nat) :=
  match boundaries with
  | [] => Ok (annos, next)
  | (_, pts) :: rest =>
      if (3 <=? List.length pts)%nat then
        anno_info <- _anno_template next idx pts obj_tag ;;
        emit_boundaries idx obj_tag rest (annos ++ [anno_info])%list (next + 1)
      else emit_boundaries idx obj_tag rest annos next
  end.

(** The body of [for item in anno.find_all('TableRegion')]. *)
Definition convert_region (idx : nat) (item : TableRegion)
           (annos : list annotation) (next : nat) : result (list annotation * nat) :=
  '(rows, columns) <- group_cells_by_row_and_column (TableCells item) ;;
  row_boundaries <- calculate_group_boundaries S rows ;;
  '(annos, next) <- emit_boundaries idx "TableRow" row_boundaries annos next ;;
  column_boundaries <- calculate_group_boundaries S columns ;;
  emit_boundaries idx "TableColumn" column_boundaries annos next.

Fixpoint convert_regions (idx : nat) (items : list TableRegion)
         (annos : list annotation) (next : nat) : result (list annotation * nat) :=
  match items with
  | [] => Ok (annos, next)
  | item :: rest =>
      '(annos, next) <- convert_region idx item annos next ;;
      convert_regions idx rest annos next
  end.

(** The body of [for idx, image_id in enumerate(self._ids)]. *)
Definition convert_file (self : PRIMADataset) (idx : nat) (image_id : string)
           (st : state) : result state :=
  match Dict.get String.eqb (image_id ++ ".jpg") (Images (disk self)) with
  | None => Ok st
  | Some size =>
      let image_info := _image_template idx (image_id ++ ".jpg") size in
      let infos := (all_image_infos st ++ [image_info])%list in
      anno <- load_annotation self idx ;;
      '(annos, next) <- convert_regions idx anno (all_anno_infos st) (anno_id st) ;;
      Ok {| all_image_infos := infos; all_anno_infos := annos; anno_id := next |}
  end.

Fixpoint convert_files (self : PRIMADataset) (items : list (nat * string)) (st : state)
  : result state :=
  match items with
  | [] => Ok st
  | (idx, image_id) :: rest =>
      st <- convert_file self idx image_id st ;;
      convert_files self rest st
  end.

(** [enumerate(l)] *)
Definition enumerate {A : Type} (l : list A) : list (nat * A) :=
  combine (seq 0 (List.length l)) l.

(** The dictionary the method returns (and dumps as JSON to [save_path]). *)
Definition convert_to_COCO (self : PRIMADataset) : result coco :=
  st <- convert_files self (enumerate (_ids self))
          {| all_image_infos := []; all_anno_infos := []; anno_id := 0 |} ;;
  Ok {| info := _info;
        licenses := [];
        images := all_image_infos st;
        annotations := all_anno_infos st;
        categories := _categories |}.
End Convert.

End Converter.

(** ** The downloader: [utils/download-voc.py] *)

Module Downloader.

Local Open Scope string_scope.

(** *** ElementTree

    An element with its tag (a namespaced tag in Clark notation,
    ["{uri}local"]), its attributes, its text and its children. *)
Inductive Element : Type :=
| Elem (tag : string) (attrib : list (string * string)) (text : option string)
       (children : list Element).

Definition tag_of (e : Element) : string := let 'Elem t _ _ _ := e in t.
Definition attrib_of (e : Element) : list (string * string) := let 'Elem _ a _ _ := e in a.
Definition text_of (e : Element) : option string := let 'Elem _ _ t _ := e in t.
Definition children_of (e : Element) : list Element := let 'Elem _ _ _ c := e in c.

(** [e.attrib.get(key)] *)
Definition attrib_get (key : string) (e : Element) : option string :=
  Dict.get String.eqb key (attrib_of e).

(** The elements below [e], in document order ([".//"] of a path). *)
Fixpoint descendants (e : Element) : list Element :=
  match e with
  | Elem _ _ _ cs =>
      (fix below (l : list Element) : list Element :=
         match l with
         | [] => []
         | c :: l' => (c :: descendants c) ++ below l'
         end)%list cs
  end.

(** [e.findall(".//tag")] *)
Definition findall_below (tag : string) (e : Element) : list Element :=
  filter (fun d => String.eqb (tag_of d) tag) (descendants e).

(** [e.find("tag")]: the first child with that tag. *)
Definition find_child (tag : string) (e : Element) : option Element :=
  List.find (fun d => String.eqb (tag_of d) tag) (children_of e).

Definition mets_ns (local : string) : string := "{http://www.loc.gov/METS/}" ++ local.

(** What [e.find(path, METS_NAMESPACE)] gives for a path text: an element,
    [None], or an exception. *)
Definition path_finder : Type := string -> Element -> result (option Element).

(** The path [f".//mets:{local}[@{key}='{value}']"], as the source builds
    it by string interpolation. *)
Definition predicate_path (local key value : string) : string :=
  ".//mets:" ++ local ++ "[@" ++ key ++ "='" ++ value ++ "']".

(** [e.find(f".//mets:{local}[@{key}='{value}']", METS_NAMESPACE)].  For a
    value without apostrophe the quoted literal of the path is the value,
    and the result is the first element below [e] with that tag and
    attribute.  An apostrophe in the value ends the literal early and the
    rest of the value is read as path syntax: what [find] then gives is
    decided by the path language of the library, [injected]. *)
Definition find_below_with (injected : path_finder) (local key value : string) (e : Element)
  : result (option Element) :=
  if Str.contains_char "'" value then injected (predicate_path local key value) e
  else Ok (List.find (fun d => String.eqb (tag_of d) (mets_ns local) &&
                               match attrib_get key d with
                               | Some v => String.eqb v value
                               | None => false
                               end)
                     (descendants e)).
Definition xlink_href : string := "{http://www.w3.org/1999/xlink}href".
Definition XML_DOWNLOAD_URL : string :=
  "https://www.nationaalarchief.nl/onderzoeken/archief/1.04.02/download/xml".
Definition XML_FILENAME : string := "1.04.02.xml".

(** *** The world: files, directories and the network

    A path is a directory and a name in it; ["."] is the working directory.
    A file holds a well-formed XML document or other bytes.  An entry of a
    directory may itself be a directory.  [requested] logs the URLs passed to
    [requests.get], oldest first.  [unlistable] names the directories whose
    entries may be opened by name but not listed.  [etree_find] is the path
    language of ElementTree on the paths that [find_below_with] leaves to
    it. *)
Definition path : Type := (string * string)%type.

Definition path_eqb (p q : path) : bool :=
  String.eqb (fst p) (fst q) && String.eqb (snd p) (snd q).

Inductive content : Type :=
| XmlDocument (root : Element)
| Bytes (data : string).

Inductive entry : Type :=
| Regular (c : content)
| Subdirectory.

(** What [requests.get(url)] does: a response with its status and body, or
    an exception: a malformed URL is a [ValueError] of the library, a failed
    connection is not. *)
Inductive response : Type :=
| Response (ok : bool) (body : content)
| InvalidURL
| ConnectionFailed.

Record World : Type := {
  entries : Dict.t path entry;
  dirs : list string;
  unlistable : list string;
  http : string -> response;
  etree_find : path_finder;
  requested : list string
}.

Definition with_entries (w : World) (es : Dict.t path entry) : World :=
  {| entries := es; dirs := dirs w; unlistable := unlistable w; http := http w;
     etree_find := etree_find w; requested := requested w |}.

Definition lookup (p : path) (w : World) : option entry :=
  Dict.get path_eqb p (entries w).

(** [p.exists()] *)
Definition exists_ (p : path) (w : World) : bool :=
  match lookup p w with Some _ => true | None => false end.

(** [d.is_dir()] *)
Definition is_dir (d : string) (w : World) : bool :=
  existsb (String.eqb d) (dirs w).

(** [d.mkdir(parents=True, exist_ok=True)] *)
Definition mkdir (d : string) (w : World) : World :=
  if is_dir d w then w
  else {| entries := entries w; dirs := (dirs w ++ [d])%list;
          unlistable := unlistable w; http := http w; etree_find := etree_find w;
          requested := requested w |}.

(** [open(p, "wb").write(c)] *)
Definition write_file (p : path) (c : content) (w : World) : result World :=
  match lookup p w with
  | Some Subdirectory => Raise IsADirectoryError
  | _ => Ok (with_entries w (Dict.set path_eqb p (Regular c) (entries w)))
  end.

Definition remove_entry (p : path) (es : Dict.t path entry) : Dict.t path entry :=
  filter (fun kv => negb (path_eqb (fst kv) p)) es.

(** [p.unlink()] *)
Definition unlink (p : path) (w : World) : result World :=
  match lookup p w with
  | None => Raise FileNotFoundError
  | Some Subdirectory => Raise IsADirectoryError
  | Some (Regular _) => Ok (with_entries w (remove_entry p (entries w)))
  end.

(** [p.rename(q)]: an existing file at [q] is replaced; a directory at [q]
    is not. *)
Definition rename (p q : path) (w : World) : result World :=
  match lookup p w with
  | None => Raise FileNotFoundError
  | Some e =>
      if path_eqb p q then Ok w
      else
        match lookup q w, e with
        | Some Subdirectory, _ => Raise IsADirectoryError
        | Some (Regular _), Subdirectory => Raise NotADirectoryError
        | _, _ =>
            Ok (with_entries w (Dict.set path_eqb q e (remove_entry p (entries w))))
        end
  end.

(** The directory [d] may be listed. *)
Definition can_list (d : string) (w : World) : bool :=
  negb (existsb (String.eqb d) (unlistable w)).

(** [d.glob("*.xml")]: the entries of [d] whose name ends in [.xml], as the
    directory lists them when the iteration starts.  On a directory that
    may not be listed [glob] yields nothing, and raises nothing. *)
Definition glob_xml (d : string) (w : World) : list path :=
  if can_list d w then
    filter (fun p => String.eqb (fst p) d && Str.endswith ".xml" (snd p))
           (map fst (entries w))
  else [].

(** [ET.parse(p).getroot()] *)
Definition parse (p : path) (w : World) : result Element :=
  match lookup p w with
  | None => Raise FileNotFoundError
  | Some Subdirectory => Raise IsADirectoryError
  | Some (Regular (Bytes _)) => Raise ParseError
  | Some (Regular (XmlDocument r)) => Ok r
  end.

(** [r = requests.get(url); r.raise_for_status(); r.content] *)
Definition get_content (url : string) (w : World) : result content * World :=
  let w' := {| entries := entries w; dirs := dirs w; unlistable := unlistable w;
               http := http w; etree_find := etree_find w;
               requested := (requested w ++ [url])%list |} in
  match http w url with
  | Response true body => (Ok body, w')
  | Response false _ => (Raise HTTPError, w')
  | InvalidURL => (Raise ValueError, w')
  | ConnectionFailed => (Raise ConnectionError, w')
  end.

(** *** The script *)

Definition ensure_1_04_02_xml (w : World) : result World :=
  if negb (exists_ (".", XML_FILENAME) w) then
    let '(r, w) := get_content XML_DOWNLOAD_URL w in
    body <- r ;;
    write_file (".", XML_FILENAME) body w
  else Ok w.

(** The table of [parse_unitid_mets]: keys are [uid.text], values
    [mets.attrib.get('href')]; either may be [None]. *)
Definition table : Type := Dict.t (option string) (option string).

Definition key_eqb (a b : option string) : bool :=
  match a, b with
  | Some x, Some y => String.eqb x y
  | None, None => true
  | _, _ => false
  end.

Fixpoint collect_unitid_mets (dids : list Element) (out : table) : table :=
  match dids with
  | [] => out
  | did :: rest =>
      let uid := find_child "unitid" did in
      let mets := find_child "dao" did in
      match uid, mets with
      | Some uid, Some mets =>
          collect_unitid_mets rest (Dict.set key_eqb (text_of uid) (attrib_get "href" mets) out)
      | _, _ => collect_unitid_mets rest out
      end
  end.

(** [parse_unitid_mets] on the parsed document. *)
Definition unitid_mets_of (r : Element) : table :=
  collect_unitid_mets (findall_below "did" r) [].

Definition parse_unitid_mets (file_path : path) (w : World) : result table :=
  r <- parse file_path w ;;
  Ok (unitid_mets_of r).

Definition extract_inventory_number (filename : string) : result string :=
  match nth_error (Str.split "1.04.02_" filename) 1 with
  | None => Raise ValueError
  | Some rest =>
      match Str.split "_" rest with
      | inv :: _ => Ok inv
      | [] => Raise IndexError
      end
  end.

Definition download_mets (url : string) (p : path) (w : World) : result World :=
  let '(r, w) := get_content url w in
  body <- r ;;
  write_file p body w.

(** Python truthiness of an optional string. *)
Definition truthy (s : option string) : bool :=
  match s with
  | Some (String _ _) => true
  | _ => false
  end.

(** The loop of [find_image_url] over the extensions still to try. *)
Fixpoint find_image_url_in (injected : path_finder) (r : Element)
         (label_without_ext : string) (exts : list string) : result (option string) :=
  match exts with
  | [] => Ok None
  | ext :: rest =>
      let label := label_without_ext ++ ext in
      div_el <- find_below_with injected "div" "LABEL" label r ;;
      match div_el with
      | None => find_image_url_in injected r label_without_ext rest
      | Some div_el =>
          let div_id := attrib_get "ID" div_el in
          match div_id with
          | Some (String c i as div_id) =>
              file_el <- find_below_with injected "file" "ID" (div_id ++ "DEF") r ;;
              match file_el with
              | None => find_image_url_in injected r label_without_ext rest
              | Some file_el =>
                  match find_child (mets_ns "FLocat") file_el with
                  | None => find_image_url_in injected r label_without_ext rest
                  | Some flocat => Ok (attrib_get xlink_href flocat)
                  end
              end
          | _ => find_image_url_in injected r label_without_ext rest
          end
      end
  end.

Definition find_image_url (mets_file : path) (label_without_ext : string) (w : World)
  : result (option string) :=
  r <- parse mets_file w ;;
  find_image_url_in (etree_find w) r label_without_ext [".tif"; ".jpg"].

(** [Path.stem]: the name without its last suffix. *)
Fixpoint rfind_dot (s : string) (pos : nat) (found : option nat) : option nat :=
  match s with
  | EmptyString => found
  | String c s' => rfind_dot s' (pos + 1) (if Ascii.eqb c "." then Some pos else found)
  end.

Definition stem (name : string) : string :=
  match rfind_dot name 0 None with
  | Some i => if (0 <? i)%nat && (i <? String.length name - 1)%nat then Str.take i name else name
  | None => name
  end.

Fixpoint rename_loop (source_dir : string) (names : list string) (renamed : list path)
         (w : World) : result (list path * World) :=
  match names with
  | [] => Ok (renamed, w)
  | name :: rest =>
      if Str.isdigit (Str.take 4 name) &&
         match String.get 4 name with Some c => Ascii.eqb c "_" | None => false end
      then
        let new_name := Str.drop 5 name in
        let new_path := (source_dir, new_name) in
        w <- rename (source_dir, name) new_path w ;;
        rename_loop source_dir rest (renamed ++ [new_path])%list w
      else rename_loop source_dir rest (renamed ++ [(source_dir, name)])%list w
  end.

Definition rename_files (source_dir : string) (w : World) : result (list path * World) :=
  rename_loop source_dir (map snd (glob_xml source_dir w)) [] w.

(** [process_file]; [processed_mets] is the set the caller shares between
    calls, returned with the world.  The messages printed are left out.
    The [try] block spans the search in the manifest and the download:
    a [ValueError] of either is caught, and the call returns. *)
Definition process_file (xml_file : path) (unitid_mets : table) (target_dir : string)
           (processed_mets : list string) (w : World) : result (list string * World) :=
  inv_no <- extract_inventory_number (snd xml_file) ;;
  match Dict.get key_eqb (Some inv_no) unitid_mets with
  | Some (Some (String _ _ as mets_url)) =>
      let mets_file : path := (target_dir, inv_no ++ ".xml") in
      '(processed_mets, w) <-
        (if negb (existsb (String.eqb inv_no) processed_mets) then
           w <- download_mets mets_url mets_file w ;;
           Ok ((processed_mets ++ [inv_no])%list, w)
         else Ok (processed_mets, w)) ;;
      let label := stem (snd xml_file) in
      match find_image_url mets_file label w with
      | Raise ValueError => Ok (processed_mets, w)
      | Raise e => Raise e
      | Ok (Some (String _ _ as image_url)) =>
          let image_path : path := (target_dir, label ++ ".jpg") in
          if exists_ image_path w then Ok (processed_mets, w)
          else
            let '(r, w) := get_content image_url w in
            match r with
            | Raise ValueError => Ok (processed_mets, w)
            | Raise e => Raise e
            | Ok body =>
                w <- write_file image_path body w ;;
                Ok (processed_mets, w)
            end
      | Ok _ => Ok (processed_mets, w)
      end
  | _ => Ok (processed_mets, w)
  end.

Fixpoint process_files (files : list path) (unitid_mets : table) (target_dir : string)
         (processed_mets : list string) (w : World) : result (list string * World) :=
  match files with
  | [] => Ok (processed_mets, w)
  | xml_file :: rest =>
      '(processed_mets, w) <- process_file xml_file unitid_mets target_dir processed_mets w ;;
      process_files rest unitid_mets target_dir processed_mets w
  end.

(** [for mf in target_dir.glob("*.xml"): mf.unlink()] *)
Fixpoint unlink_all (files : list path) (w : World) : result World :=
  match files with
  | [] => Ok w
  | mf :: rest =>
      w <- unlink mf w ;;
      unlink_all rest w
  end.

Definition main (argv : list string) (w : World) : result World :=
  match argv with
  | [_; source_dir; target_dir] =>
      if negb (is_dir source_dir w) then Raise (SystemExit 1)
      else
        let w := mkdir target_dir w in
        '(renamed_files, w) <- rename_files source_dir w ;;
        w <- ensure_1_04_02_xml w ;;
        unitid_mets <- parse_unitid_mets (".", XML_FILENAME) w ;;
        '(_, w) <- process_files renamed_files unitid_mets target_dir [] w ;;
        unlink_all (glob_xml target_dir w) w
  | _ => Raise (SystemExit 1)
  end.

End Downloader.

(** * Vocabulary of the properties, and sample data *)

Module ConverterSpec.
Import Converter.
Local Open Scope string_scope.
Local Open Scope nat_scope.

(** *** Grouping cells by row and column *)

(** [int(cell[attr])] *)
Definition cell_key (attr : string) (cell : TableCell) : result Z :=
  text <- getitem attr cell ;; Str.int text.

(** The cell's [attr] attribute has the integer value [k]. *)
Definition has_key (attr : string) (k : Z) (cell : TableCell) : bool :=
  match cell_key attr cell with
  | Ok k' => Z.eqb k k'
  | Raise _ => false
  end.

(** The list a key holds after more cells were appended to its group. *)
Definition extended (old : option (list TableCell)) (more : list TableCell)
  : option (list TableCell) :=
  match old, more with
  | Some l, _ => Some (l ++ more)%list
  | None, [] => None
  | None, _ :: _ => Some more
  end.

(** What a dictionary of groups is for a list of cells and an attribute:
    unique keys, every group non-empty and holding exactly the cells whose
    attribute has the group's key, in input order, and every cell's key
    present. *)
Definition groups_cells_by (attr : string) (cells : list TableCell) (d : groups) : Prop :=
  NoDup (Dict.keys d) /\
  (forall k l, In (k, l) d -> l <> [] /\ l = filter (has_key attr k) cells) /\
  (forall c, In c cells ->
     exists k l, cell_key attr c = Ok k /\ In (k, l) d /\ In c l /\
       forall k' l', In (k', l') d -> In c l' -> k' = k) /\
  (forall c1 c2, In c1 cells -> In c2 cells ->
     ((exists k l, In (k, l) d /\ In c1 l /\ In c2 l) <->
      cell_key attr c1 = cell_key attr c2)).

Unset Implicit Arguments.

(** *** The records of a run, without their running numbers

    [convert_to_COCO] threads the list of records and the counter [anno_id]
    through three nested loops.  The functions below compute what each
    loop contributes, every record carrying the number 0; the run is these
    contributions concatenated and numbered from 0 ([renumber]). *)

Definition with_id (i : nat) (a : annotation) : annotation :=
  {| segmentation := segmentation a; area := area a; iscrowd := iscrowd a;
     image_id := image_id a; bbox := bbox a; category_id := category_id a;
     ann_id := i |}.

Fixpoint renumber (start : nat) (l : list annotation) : list annotation :=
  match l with
  | [] => []
  | a :: l' => with_id start a :: renumber (S start) l'
  end.

Fixpoint boundary_records (idx : nat) (obj_tag : string) (boundaries : list (Z * list point))
  : result (list annotation) :=
  match boundaries with
  | [] => Ok []
  | (_, pts) :: rest =>
      if (3 <=? List.length pts)%nat then
        a <- _anno_template 0 idx pts obj_tag ;;
        l <- boundary_records idx obj_tag rest ;;
        Ok (a :: l)
      else boundary_records idx obj_tag rest
  end.

Definition region_records (S : Shapely) (idx : nat) (item : TableRegion)
  : result (list annotation) :=
  '(rows, columns) <- group_cells_by_row_and_column (TableCells item) ;;
  row_boundaries <- calculate_group_boundaries S rows ;;
  r <- boundary_records idx "TableRow" row_boundaries ;;
  column_boundaries <- calculate_group_boundaries S columns ;;
  c <- boundary_records idx "TableColumn" column_boundaries ;;
  Ok (r ++ c)%list.

Fixpoint regions_records (S : Shapely) (idx : nat) (items : list TableRegion)
  : result (list annotation) :=
  match items with
  | [] => Ok []
  | item :: rest =>
      a <- region_records S idx item ;;
      b <- regions_records S idx rest ;;
      Ok (a ++ b)%list
  end.

Definition file_records (S : Shapely) (self : PRIMADataset) (idx : nat) (image_id : string)
  : result (list annotation) :=
  match Dict.get String.eqb (image_id ++ ".jpg") (Images (disk self)) with
  | None => Ok []
  | Some _ =>
      anno <- load_annotation self idx ;;
      regions_records S idx anno
  end.

Definition file_images (self : PRIMADataset) (idx : nat) (image_id : string)
  : list image_info :=
  match Dict.get String.eqb (image_id ++ ".jpg") (Images (disk self)) with
  | None => []
  | Some size => [_image_template idx (image_id ++ ".jpg") size]
  end.

(** The contributions of the files, one list per file. *)
Fixpoint files_records (S : Shapely) (self : PRIMADataset) (items : list (nat * string))
  : result (list (list annotation)) :=
  match items with
  | [] => Ok []
  | (idx, image_id) :: rest =>
      a <- file_records S self idx image_id ;;
      b <- files_records S self rest ;;
      Ok (a :: b)
  end.

(** [emitted S self a]: the record [a] (numbered 0) is what [_anno_template]
    makes of a boundary of at least three points of a row group or of a
    column group of a table region of a file of the dataset that has an
    image. *)
Inductive emitted (S : Shapely) (self : PRIMADataset) (a : annotation) : Prop :=
| emitted_intro (idx : nat) (image_id : string) (anno : soup) (item : TableRegion)
    (rows columns d : groups) (tag : string) (bs : list (Z * list point))
    (k : Z) (pts : list point) :
    nth_error (_ids self) idx = Some image_id ->
    Dict.get String.eqb (image_id ++ ".jpg") (Images (disk self)) <> None ->
    load_annotation self idx = Ok anno ->
    In item anno ->
    group_cells_by_row_and_column (TableCells item) = Ok (rows, columns) ->
    (tag = "TableRow" /\ d = rows) \/ (tag = "TableColumn" /\ d = columns) ->
    calculate_group_boundaries S d = Ok bs ->
    In (k, pts) bs ->
    3 <= List.length pts ->
    _anno_template 0 idx pts tag = Ok a ->
    emitted S self a.

(** *** Sample data

    [Rings] is the fragment of the geometry library that the examples use:
    a geometry is a finite collection of simple rings that do not meet
    (neither overlapping nor touching); every such geometry is valid, and
    the union of several is the collection of all their rings.  The examples
    below only build polygons that are pairwise apart, and depend neither
    on the vertex a ring starts at nor on the order of the parts of a
    union. *)

Definition point_eqb (p r : point) : bool :=
  Qeq_bool (fst p) (fst r) && Qeq_bool (snd p) (snd r).

(** The coordinates of the ring that [Polygon(coords)] builds: closed. *)
Definition close_ring (coords : list point) : list point :=
  match coords with
  | [] => []
  | p :: _ => if point_eqb p (last coords p) then coords else (coords ++ [p])%list
  end.

Definition Rings : Shapely :=
  {| geometry := list (list point);
     Polygon := fun coords =>
       if 4 <=? List.length (close_ring coords) then Ok [close_ring coords]
       else Raise ValueError;
     is_valid := fun _ => true;
     make_valid := fun g => g;
     unary_union := fun gs => List.concat gs;
     geom_type := fun g =>
       match g with
       | [] => "GeometryCollection"
       | [_] => "Polygon"
       | _ => "MultiPolygon"
       end;
     exterior_coords := fun g => hd [] g;
     geoms := fun g => map (fun r => [r]) g;
     geom_area := fun g => fold_right Qplus 0%Q (map cal_ployarea g) |}.

(** The unit square with lower left corner [(x, y)]. *)
Definition square (x y : Z) : list point :=
  [ (inject_Z x, inject_Z y); (inject_Z (x + 1), inject_Z y);
    (inject_Z (x + 1), inject_Z (y + 1)); (inject_Z x, inject_Z (y + 1)) ].

Definition cell (row col : string) (pts : list point) : TableCell :=
  {| attrs := [("row", row); ("col", col)];
     cell_Coords := Some {| points := Some pts; Point := [] |} |}.

(** A 2 x 2 table whose cells stand apart. *)
Definition table_2x2 : TableRegion :=
  {| TableCells := [ cell "0" "0" (square 0 0); cell "0" "1" (square 2 0);
                     cell "1" "0" (square 0 2); cell "1" "1" (square 2 2) ] |}.

Definition table_1x1 : TableRegion :=
  {| TableCells := [ cell "0" "0" (square 0 0) ] |}.

(** A table whose only cell has a two-point outline. *)
Definition table_segment : TableRegion :=
  {| TableCells := [ cell "0" "0" [(0, 0); (1, 1)]%Q ] |}.

Definition sample_disk : Disk :=
  {| XML := [ ("pc-a.xml", [table_2x2]); ("b.xml", [table_1x1]) ];
     Images := [ ("a.jpg", (640, 480)%Z); ("b.jpg", (800, 600)%Z) ] |}.

(** The same disk with an empty page in [pc-a.xml]. *)
Definition sample_disk' : Disk :=
  {| XML := [ ("pc-a.xml", []); ("b.xml", [table_1x1]) ];
     Images := [ ("a.jpg", (640, 480)%Z); ("b.jpg", (800, 600)%Z) ] |}.

Definition sample_out : coco :=
  match convert_to_COCO Rings (__init__ sample_disk) with
  | Ok out => out
  | Raise _ => {| info := _info; licenses := []; images := []; annotations := [];
                  categories := [] |}
  end.

(** *** Bounding box and area *)

Local Open Scope Q_scope.




(** The first record of the sample run: the row 0 of the 2 x 2 table. *)
Definition sample_record : annotation :=
  nth 0 (annotations sample_out)
      {| segmentation := []; area := 0; iscrowd := 0; image_id := 0%nat; bbox := [];
         category_id := 0; ann_id := 0%nat |}.

Local Close Scope Q_scope.

(** *** How many records a region yields *)

(** [len(cvt_coords_to_array(cell.Coords))], 0 for a cell without outline. *)
Definition cell_point_count (c : TableCell) : nat :=
  match cvt_coords_to_array (cell_Coords c) with
  | Ok pts => List.length pts
  | Raise _ => 0
  end.

(** The number of points of the cells of a group. *)
Definition group_point_count (g : Z * list TableCell) : nat :=
  list_sum (map cell_point_count (snd g)).

Definition zero_point_groups (d : groups) : nat :=
  List.length (filter (fun g => group_point_count g =? 0) d).

Definition long_enough (b : Z * list point) : bool := 3 <=? List.length (snd b).

Definition table_2x2_records : list annotation * nat :=
  match convert_region Rings 0 table_2x2 [] 0 with
  | Ok r => r
  | Raise _ => ([], 0)
  end.

(** *** The polygon of a record *)

(** The outlines of the cells of a group, as [cvt_coords_to_array] reads
    them. *)
Definition outlines_of (cells : list TableCell) (outlines : list (list point)) : Prop :=
  Forall2 (fun c o => cvt_coords_to_array (cell_Coords c) = Ok o) cells outlines.

(** The polygons that enter the union: one for every outline of at least
    three points, repaired with [make_valid] when it is not valid. *)
Definition group_polygons (S : Shapely) (outlines : list (list point))
           (polys : list (geometry S)) : Prop :=
  Forall2 (fun o p => cell_polygon S o = Ok p)
          (filter (fun o => 3 <=? List.length o) outlines) polys.




(** *** What becomes of a group *)

(** A group is recorded, or yields no record for one of three reasons. *)
Inductive outcome : Type :=
| Recorded
| NoUsableCell
| NotPolygonal
| ShortBoundary.

Definition skipped (o : outcome) : bool :=
  match o with
  | Recorded => false
  | _ => true
  end.

(** [p] is the first part of largest area among [parts]. *)
Definition first_largest (S : Shapely) (parts : list (geometry S)) (p : geometry S) : Prop :=
  exists before after,
    parts = (before ++ p :: after)%list /\
    (forall q, In q before -> (geom_area S q < geom_area S p)%Q) /\
    (forall q, In q after -> (geom_area S q <= geom_area S p)%Q).

(** [pts] is the boundary of the group whose polygons are [polys]: the
    exterior ring of their union when the union is a Polygon, the exterior
    ring of the first part of largest area when it is a MultiPolygon. *)
Definition group_boundary (S : Shapely) (polys : list (geometry S)) (pts : list point) : Prop :=
  let u := unary_union S polys in
  (geom_type S u = "Polygon" /\ pts = exterior_coords S u) \/
  (geom_type S u = "MultiPolygon" /\
   exists p, first_largest S (geoms S u) p /\ pts = exterior_coords S p).

(** The outcome of a group: no cell of it has at least three points; or
    the union of the polygons of the cells that have is neither a Polygon
    nor a MultiPolygon; or the boundary of the group has fewer than three
    points; or, with a boundary of at least three points, the group is
    recorded. *)
Definition group_outcome (S : Shapely) (g : Z * list TableCell) (o : outcome) : Prop :=
  exists outlines polys,
    outlines_of (snd g) outlines /\ group_polygons S outlines polys /\
    match o with
    | NoUsableCell => Forall (fun outline => List.length outline < 3) outlines
    | NotPolygonal =>
        polys <> [] /\
        geom_type S (unary_union S polys) <> "Polygon" /\
        geom_type S (unary_union S polys) <> "MultiPolygon"
    | ShortBoundary =>
        polys <> [] /\ exists pts, group_boundary S polys pts /\ List.length pts < 3
    | Recorded =>
        polys <> [] /\ exists pts, group_boundary S polys pts /\ 3 <= List.length pts
    end.

(** The outcome of a group, a group without points having no usable cell. *)
Definition classified (S : Shapely) (g : Z * list TableCell) (o : outcome) : Prop :=
  group_outcome S g o /\ (group_point_count g = 0 -> o = NoUsableCell).

(** *** Independence of the files *)

(** The two disks hold the same images and the same annotation file names,
    and every annotation file other than [f] has the same content. *)
Definition differ_only_in (f : string) (d1 d2 : Disk) : Prop :=
  Images d1 = Images d2 /\
  map fst (XML d1) = map fst (XML d2) /\
  forall n, n <> f -> Dict.get String.eqb n (XML d1) = Dict.get String.eqb n (XML d2).

(** The name of the file that [load_annotation] reads for an index. *)
Definition annotation_file (self : PRIMADataset) (idx : nat) : option string :=
  match nth_error (_ids self) idx with
  | None => None
  | Some image_id =>
      if Dict.mem String.eqb ("pc-" ++ image_id ++ ".xml") (XML (disk self))
      then Some ("pc-" ++ image_id ++ ".xml")
      else if Dict.mem String.eqb (image_id ++ ".xml") (XML (disk self))
           then Some (image_id ++ ".xml")
           else None
  end.

(** The records of the output that belong to the file of index [idx]. *)
Definition records_for (idx : nat) (out : coco) : list annotation :=
  filter (fun a => image_id a =? idx) (annotations out).

(** The records of the output that belong to files of smaller index. *)
Definition records_before (idx : nat) (out : coco) : list annotation :=
  filter (fun a => image_id a <? idx) (annotations out).

(** A disk on which two listed files make the same id: [pc-a.xml] and
    [a.xml]; and the same disk with an empty page in [pc-a.xml]. *)
Definition alias_disk : Disk :=
  {| XML := [ ("pc-a.xml", [table_2x2]); ("a.xml", [table_1x1]) ];
     Images := [ ("a.jpg", (640, 480)%Z) ] |}.

Definition alias_disk' : Disk :=
  {| XML := [ ("pc-a.xml", []); ("a.xml", [table_1x1]) ];
     Images := [ ("a.jpg", (640, 480)%Z) ] |}.

Definition alias_out : coco :=
  match convert_to_COCO Rings (__init__ alias_disk) with
  | Ok out => out
  | Raise _ => {| info := _info; licenses := []; images := []; annotations := [];
                  categories := [] |}
  end.

Definition alias_out' : coco :=
  match convert_to_COCO Rings (__init__ alias_disk') with
  | Ok out => out
  | Raise _ => {| info := _info; licenses := []; images := []; annotations := [];
                  categories := [] |}
  end.

Definition sample_out' : coco :=
  match convert_to_COCO Rings (__init__ sample_disk') with
  | Ok out => out
  | Raise _ => {| info := _info; licenses := []; images := []; annotations := [];
                  categories := [] |}
  end.

End ConverterSpec.

Module DownloaderSpec.
Import Downloader.
Unset Implicit Arguments.
Local Open Scope string_scope.
Local Open Scope nat_scope.
Local Open Scope list_scope.

(** *** The finding-aid table *)

(** The entry a [did] element contributes: the text of its first [unitid]
    child and the [href] of its first [dao] child, when it has both. *)
Definition did_entry (did : Element) : option (option string * option string) :=
  match find_child "unitid" did, find_child "dao" did with
  | Some uid, Some mets => Some (text_of uid, attrib_get "href" mets)
  | _, _ => None
  end.

(** The entries of the [did] elements below the root, in document order. *)
Definition did_entries (r : Element) : list (option string * option string) :=
  flat_map (fun did => match did_entry did with Some e => [e] | None => [] end)
           (findall_below "did" r).

(** A finding aid with two [did] elements of the same [unitid]. *)
Definition ead_twice : Element :=
  Elem "ead" [] None
    [ Elem "did" [] None
        [ Elem "unitid" [] (Some "1234") []; Elem "dao" [("href", "http://mets/a")] None [] ];
      Elem "did" [] None
        [ Elem "unitid" [] (Some "1234") []; Elem "dao" [("href", "http://mets/b")] None [] ] ].

(** *** Sample world *)

Definition label_5 : string := "NL-HaNA_1.04.02_1234_0005".

(** The METS manifest of inventory number 1234: one page, one file. *)
Definition mets_1234 : Element :=
  Elem (mets_ns "mets") [] None
    [ Elem (mets_ns "fileSec") [] None
        [ Elem (mets_ns "file") [("ID", "p5DEF")] None
            [ Elem (mets_ns "FLocat") [(xlink_href, "http://scans/5.jpg")] None [] ] ];
      Elem (mets_ns "structMap") [] None
        [ Elem (mets_ns "div") [("LABEL", (label_5 ++ ".tif")%string); ("ID", "p5")] None [] ] ].

Definition ead_1234 : Element :=
  Elem "ead" [] None
    [ Elem "did" [] None
        [ Elem "unitid" [] (Some "1234") [];
          Elem "dao" [("href", "http://mets/1234")] None [] ] ].

Definition sample_http (url : string) : response :=
  if String.eqb url XML_DOWNLOAD_URL then Response true (XmlDocument ead_1234)
  else if String.eqb url "http://mets/1234" then Response true (XmlDocument mets_1234)
  else if String.eqb url "http://scans/5.jpg" then Response true (Bytes "JFIF")
  else ConnectionFailed.

(** The samples build no path from a value with an apostrophe, and never
    ask the path language. *)
Definition sample_finder : path_finder := fun _ _ => Raise SyntaxError.

(** A source directory with one misnamed annotation file, and a target
    directory that already holds an [.xml] file. *)
Definition sample_world : World :=
  {| entries :=
       [ (("pages", ("0001_" ++ label_5 ++ ".xml")%string),
          Regular (XmlDocument (Elem "PcGts" [] None [])));
         (("out", "notes.xml"), Regular (Bytes "notes")) ];
     dirs := ["pages"; "out"];
     unlistable := [];
     http := sample_http;
     etree_find := sample_finder;
     requested := [] |}.

Definition sample_argv : list string := ["download-voc.py"; "pages"; "out"].

(** The sample world with a target directory that may not be listed. *)
Definition sealed_world : World :=
  {| entries := entries sample_world;
     dirs := dirs sample_world;
     unlistable := ["out"];
     http := http sample_world;
     etree_find := sample_finder;
     requested := [] |}.

Definition sample_world_end : World :=
  match main sample_argv sample_world with
  | Ok w => w
  | Raise _ => sample_world
  end.

(** *** Fetching the page image *)

(** The path the image of an annotation file is saved at. *)
Definition image_path_of (xml_file : path) (target_dir : string) : path :=
  (target_dir, (stem (snd xml_file) ++ ".jpg")%string).

(** The METS URL the table gives for an inventory number, when it is a
    non-empty string. *)
Definition mets_url_of (unitid_mets : table) (inv_no : string) : option string :=
  match Dict.get key_eqb (Some inv_no) unitid_mets with
  | Some (Some (String c s)) => Some (String c s)
  | _ => None
  end.

(** The request [process_file] makes for the manifest: none when the file
    name gives no inventory number with a METS URL, or when the manifest
    of that number was downloaded before. *)
Definition mets_request (xml_file : path) (unitid_mets : table) (processed_mets : list string)
  : list string :=
  match extract_inventory_number (snd xml_file) with
  | Ok inv_no =>
      match mets_url_of unitid_mets inv_no with
      | Some url => if existsb (String.eqb inv_no) processed_mets then [] else [url]
      | None => []
      end
  | Raise _ => []
  end.

(** The call that led from [w] to [w'] requested the page image at [url]:
    after the request for the manifest, if any, it made one more request,
    for [url]. *)
Definition image_fetched (xml_file : path) (unitid_mets : table) (processed_mets : list string)
           (w w' : World) (url : string) : Prop :=
  requested w' = requested w ++ mets_request xml_file unitid_mets processed_mets ++ [url].

(** The call that led from [w] to [w'] saved the page image from [url]:
    the server answered the request with a body, and the image file holds
    that body. *)
Definition image_saved (xml_file : path) (target_dir : string) (w w' : World) (url : string)
  : Prop :=
  exists body,
    http w url = Response true body /\
    lookup (image_path_of xml_file target_dir) w' = Some (Regular body).

(** [d] has the tag [tag] and the value [value] for the attribute [key]. *)
Definition carries (tag key value : string) (d : Element) : Prop :=
  tag_of d = tag /\ attrib_get key d = Some value.

(** [e] is the first element of [l] with the property [P]. *)
Definition first_of (P : Element -> Prop) (l : list Element) (e : Element) : Prop :=
  exists before after,
    l = before ++ e :: after /\ P e /\ forall d, In d before -> ~ P d.

(** The label [label] leads to the element [flocat] of the manifest [r]:
    the first [div] below the root with that [LABEL] has a non-empty [ID];
    the first [file] below the root whose [ID] is that [ID] followed by
    [DEF] has an [FLocat] child, and [flocat] is the first one. *)
Definition leads_to (r : Element) (label : string) (flocat : Element) : Prop :=
  exists div_el div_id file_el,
    first_of (carries (mets_ns "div") "LABEL" label) (descendants r) div_el /\
    attrib_get "ID" div_el = Some div_id /\ div_id <> ""%string /\
    first_of (carries (mets_ns "file") "ID" (div_id ++ "DEF")%string) (descendants r) file_el /\
    first_of (fun c => tag_of c = mets_ns "FLocat") (children_of file_el) flocat.

(** The label of a file resolves to the resource URL [url] in the manifest
    [r]: the label with [.tif], or else (when that leads nowhere) with
    [.jpg], leads to an [FLocat] element whose [xlink:href] is [url], and
    [url] is not empty. *)
Definition resolves (r : Element) (label_without_ext url : string) : Prop :=
  url <> ""%string /\
  exists flocat,
    attrib_get xlink_href flocat = Some url /\
    (leads_to r (label_without_ext ++ ".tif")%string flocat \/
     ((forall f, ~ leads_to r (label_without_ext ++ ".tif")%string f) /\
      leads_to r (label_without_ext ++ ".jpg")%string flocat)).

(** No [ID] in the manifest holds an apostrophe. *)
Definition plain_ids (r : Element) : Prop :=
  forall d id, In d (descendants r) -> attrib_get "ID" d = Some id ->
               Str.contains_char "'" id = false.

(** The METS manifest of the inventory number of a file, as stored in the
    target directory; none when the name gives no inventory number, the
    table no METS URL for it, or the file there is no XML document. *)
Definition manifest_of (xml_file : path) (unitid_mets : table) (target_dir : string)
           (w : World) : option Element :=
  match extract_inventory_number (snd xml_file) with
  | Ok inv_no =>
      match mets_url_of unitid_mets inv_no with
      | Some _ =>
          match parse (target_dir, (inv_no ++ ".xml")%string) w with
          | Ok r => Some r
          | Raise _ => None
          end
      | None => None
      end
  | Raise _ => None
  end.

(** The label of the file (its stem) resolves to [url] in its manifest. *)
Definition label_resolves (xml_file : path) (unitid_mets : table) (target_dir : string)
           (w : World) (url : string) : Prop :=
  exists r,
    manifest_of xml_file unitid_mets target_dir w = Some r /\
    resolves r (stem (snd xml_file)) url.

(** What [find_image_url] returns for the file on its manifest, when that
    is a non-empty URL. *)
Definition label_url (xml_file : path) (unitid_mets : table) (target_dir : string) (w : World)
  : option string :=
  match extract_inventory_number (snd xml_file) with
  | Ok inv_no =>
      match mets_url_of unitid_mets inv_no with
      | Some _ =>
          match find_image_url (target_dir, (inv_no ++ ".xml")%string)
                               (stem (snd xml_file)) w with
          | Ok (Some (String c s)) => Some (String c s)
          | _ => None
          end
      | None => None
      end
  | Raise _ => None
  end.

Definition page_5 : path := ("pages", (label_5 ++ ".xml")%string).

Definition sample_table : table := unitid_mets_of ead_1234.

Definition sample_processed : list string * World :=
  match process_file page_5 sample_table "out" [] sample_world with
  | Ok r => r
  | Raise _ => ([], sample_world)
  end.

(** The sample world with the image of the page already in the target
    directory. *)
Definition world_with_image : World :=
  {| entries := entries sample_world ++
                [ (image_path_of page_5 "out", Regular (Bytes "JFIF")) ];
     dirs := dirs sample_world;
     unlistable := [];
     http := http sample_world;
     etree_find := sample_finder;
     requested := [] |}.

End DownloaderSpec.

(** * Vocabulary of the further properties *)

Module ConverterMoreSpec.
Import Converter ConverterSpec.
Unset Implicit Arguments.
Local Open Scope string_scope.
Local Open Scope nat_scope.

(** *** Groups *)

(** The number of cells in the groups of a dictionary. *)
Definition group_sizes (d : groups) : nat :=
  list_sum (map (fun g => List.length (snd g)) d).

(** The elements of a list in the order of their first occurrence. *)
Definition first_occurrences (l : list Z) : list Z :=
  rev (nodup Z.eq_dec (rev l)).

(** The integer keys that the cells of a list carry in an attribute. *)
Definition keys_of (attr : string) (cells : list TableCell) : list Z :=
  flat_map (fun c => match cell_key attr c with Ok k => [k] | Raise _ => [] end) cells.

Definition table_2x2_groups : groups * groups :=
  match group_cells_by_row_and_column (TableCells table_2x2) with
  | Ok g => g
  | Raise _ => ([], [])
  end.

(** *** Images *)

(** The file of index [idx] has an image on disk. *)
Definition has_image (self : PRIMADataset) (idx : nat) : bool :=
  match nth_error (_ids self) idx with
  | Some image_id => Dict.mem String.eqb (image_id ++ ".jpg") (Images (disk self))
  | None => false
  end.

(** *** Order *)

(** [l1] is [l2] with some elements left out. *)
Inductive subsequence {A : Type} : list A -> list A -> Prop :=
| subsequence_nil : subsequence [] []
| subsequence_skip (x : A) (l1 l2 : list A) :
    subsequence l1 l2 -> subsequence l1 (x :: l2)
| subsequence_keep (x : A) (l1 l2 : list A) :
    subsequence l1 l2 -> subsequence (x :: l1) (x :: l2).

Definition table_2x2_row_boundaries : list (Z * list point) :=
  match calculate_group_boundaries Rings (fst table_2x2_groups) with
  | Ok bs => bs
  | Raise _ => []
  end.

End ConverterMoreSpec.

Module DownloaderMoreSpec.
Import Downloader DownloaderSpec.
Unset Implicit Arguments.
Local Open Scope string_scope.
Local Open Scope nat_scope.
Local Open Scope list_scope.

(** *** Strings *)

(** The first piece of a split. *)
Definition first_piece (pieces : list string) : string :=
  match pieces with
  | p :: _ => p
  | [] => ""
  end.

(** The separator of [extract_inventory_number]. *)
Definition archive_code : string := "1.04.02_".

(** *** Files *)


(** The name [rename_files] gives a file: without its prefix of four
    digits and an underscore, when it has one. *)
Definition corrected_name (name : string) : string :=
  if Str.isdigit (Str.take 4 name) &&
     match String.get 4 name with Some c => Ascii.eqb c "_" | None => false end
  then Str.drop 5 name
  else name.



Definition world_with_finding_aid : World :=
  match ensure_1_04_02_xml sample_world with
  | Ok w => w
  | Raise _ => sample_world
  end.


(** [w'] and [w] hold the same files, but for entries of [d] whose name
    matches [*.xml]. *)
Definition same_but_xml_in (d : string) (w w' : World) : Prop :=
  forall p, fst p <> d \/ Str.endswith ".xml" (snd p) = false -> lookup p w' = lookup p w.

Definition sample_renamed : list path * World :=
  match rename_files "pages" sample_world with
  | Ok r => r
  | Raise _ => ([], sample_world)
  end.

End DownloaderMoreSpec.

(** * Properties *)

Lemma bind_Ok_inv {A B : Type} (m : result A) (k : A -> result B) (b : B) :
  Py.bind m k = Ok b -> exists a, m = Ok a /\ k a = Ok b.
Proof. destruct m as [a|e]; simpl; intros H; [eauto | discriminate]. Qed.

Ltac bind_inv H :=
  let a := fresh "v" in
  let Ha := fresh "E" in
  apply bind_Ok_inv in H; destruct H as (a & Ha & H).

(** ** Dictionaries *)

Module DictFacts.
Section DictFacts.
  Variables (K V : Type).
  Variable eqb : K -> K -> bool.
  Hypothesis eqb_eq : forall a b, eqb a b = true <-> a = b.

Lemma eqb_refl (a : K) : eqb a a = true.
Proof. now apply eqb_eq. Qed.

Lemma eqb_neq (a b : K) : a <> b -> eqb a b = false.
Proof.
  intros H. destruct (eqb a b) eqn:E; [|reflexivity].
  apply eqb_eq in E. contradiction.
Qed.

Lemma get_set_same (k : K) (v : V) (d : Dict.t K V) :
  Dict.get eqb k (Dict.set eqb k v d) = Some v.
Proof.
  induction d as [|[k' v'] d IH]; simpl.
  - now rewrite eqb_refl.
  - destruct (eqb k k') eqn:E; simpl; rewrite E; auto.
Qed.

Lemma get_set_other (k k' : K) (v : V) (d : Dict.t K V) :
  k <> k' -> Dict.get eqb k' (Dict.set eqb k v d) = Dict.get eqb k' d.
Proof.
  intros Hne. induction d as [|[k0 v0] d IH]; simpl.
  - rewrite eqb_neq; auto.
  - destruct (eqb k k0) eqn:E; simpl.
    + apply eqb_eq in E. subst k0. rewrite eqb_neq; auto.
    + now rewrite IH.
Qed.

Lemma keys_set (k : K) (v : V) (d : Dict.t K V) :
  Dict.keys (Dict.set eqb k v d) =
  if Dict.mem eqb k d then Dict.keys d else (Dict.keys d ++ [k])%list.
Proof.
  unfold Dict.mem, Dict.keys. induction d as [|[k' v'] d IH]; simpl; auto.
  destruct (eqb k k') eqn:E; simpl; auto.
  rewrite IH. destruct (Dict.get eqb k d); reflexivity.
Qed.

Lemma get_None_keys (k : K) (d : Dict.t K V) :
  Dict.get eqb k d = None <-> ~ In k (Dict.keys d).
Proof.
  unfold Dict.keys. induction d as [|[k' v'] d IH]; simpl.
  - tauto.
  - destruct (eqb k k') eqn:E.
    + apply eqb_eq in E. subst. split; [discriminate | intros H; exfalso; auto].
    + rewrite IH. split; [|tauto].
      intros H [H1|H1]; [|tauto]. subst. rewrite eqb_refl in E. discriminate.
Qed.

Lemma NoDup_keys_set (k : K) (v : V) (d : Dict.t K V) :
  NoDup (Dict.keys d) -> NoDup (Dict.keys (Dict.set eqb k v d)).
Proof.
  intros H. rewrite keys_set. unfold Dict.mem.
  destruct (Dict.get eqb k d) eqn:E; auto.
  apply get_None_keys in E.
  apply NoDup_rev in H. rewrite <- (rev_involutive (_ ++ _)).
  apply NoDup_rev. rewrite rev_app_distr. simpl. constructor; auto.
  now rewrite <- in_rev.
Qed.

Lemma get_In (k : K) (v : V) (d : Dict.t K V) :
  Dict.get eqb k d = Some v -> In (k, v) d.
Proof.
  induction d as [|[k' v'] d IH]; simpl; [discriminate|].
  destruct (eqb k k') eqn:E.
  - apply eqb_eq in E. intros [= ->]. subst. auto.
  - auto.
Qed.

Lemma In_get (k : K) (v : V) (d : Dict.t K V) :
  NoDup (Dict.keys d) -> In (k, v) d -> Dict.get eqb k d = Some v.
Proof.
  unfold Dict.keys. induction d as [|[k' v'] d IH]; simpl; [tauto|].
  intros Hnd [H|H].
  - injection H as -> ->. now rewrite eqb_refl.
  - inversion Hnd; subst. destruct (eqb k k') eqn:E.
    + apply eqb_eq in E. subst. exfalso. apply H2.
      apply (in_map fst) in H. exact H.
    + auto.
Qed.

End DictFacts.
End DictFacts.

(** ** The converter *)

Module ConverterFacts.
Import Converter ConverterSpec.
Local Open Scope string_scope.
Local Open Scope nat_scope.

(** *** Grouping cells by row and column *)

Lemma append_to_group_get (k k' : Z) (c : TableCell) (d : groups) :
  Dict.get Z.eqb k' (append_to_group k c d) =
  if Z.eqb k k' then extended (Dict.get Z.eqb k d) [c] else Dict.get Z.eqb k' d.
Proof.
  unfold append_to_group, Dict.mem.
  destruct (Dict.get Z.eqb k d) as [l|] eqn:E; simpl.
  - rewrite E. destruct (Z.eqb_spec k k') as [->|Hne].
    + now rewrite (DictFacts.get_set_same Z.eqb Z.eqb_eq).
    + now rewrite (DictFacts.get_set_other Z.eqb Z.eqb_eq).
  - rewrite (DictFacts.get_set_same Z.eqb Z.eqb_eq).
    destruct (Z.eqb_spec k k') as [->|Hne].
    + now rewrite (DictFacts.get_set_same Z.eqb Z.eqb_eq).
    + rewrite !(DictFacts.get_set_other Z.eqb Z.eqb_eq) by assumption. reflexivity.
Qed.

Lemma append_to_group_NoDup (k : Z) (c : TableCell) (d : groups) :
  NoDup (Dict.keys d) -> NoDup (Dict.keys (append_to_group k c d)).
Proof.
  intros H. unfold append_to_group.
  set (d1 := if negb (Dict.mem Z.eqb k d) then Dict.set Z.eqb k [] d else d).
  assert (H1 : NoDup (Dict.keys d1)).
  { unfold d1. destruct (negb _); auto. now apply (DictFacts.NoDup_keys_set Z.eqb Z.eqb_eq). }
  destruct (Dict.get Z.eqb k d1); auto.
  now apply (DictFacts.NoDup_keys_set Z.eqb Z.eqb_eq).
Qed.

Lemma extended_step (attr : string) (k r : Z) (c : TableCell) (cs : list TableCell)
      (d : groups) :
  cell_key attr c = Ok r ->
  extended (if Z.eqb r k then extended (Dict.get Z.eqb r d) [c] else Dict.get Z.eqb k d)
           (filter (has_key attr k) cs)
  = extended (Dict.get Z.eqb k d) (filter (has_key attr k) (c :: cs)).
Proof.
  intros Hc. simpl. unfold has_key at 2. rewrite Hc.
  rewrite (Z.eqb_sym k r). destruct (Z.eqb_spec r k) as [->|Hne].
  - destruct (Dict.get Z.eqb k d) as [l|]; simpl; [now rewrite <- app_assoc | reflexivity].
  - reflexivity.
Qed.

Lemma group_loop_spec (cells : list TableCell) :
  forall rows columns rows' columns',
    group_loop cells rows columns = Ok (rows', columns') ->
    (forall c, In c cells ->
       exists r k, cell_key "row" c = Ok r /\ cell_key "col" c = Ok k) /\
    (forall k, Dict.get Z.eqb k rows' =
               extended (Dict.get Z.eqb k rows) (filter (has_key "row" k) cells)) /\
    (forall k, Dict.get Z.eqb k columns' =
               extended (Dict.get Z.eqb k columns) (filter (has_key "col" k) cells)) /\
    (NoDup (Dict.keys rows) -> NoDup (Dict.keys rows')) /\
    (NoDup (Dict.keys columns) -> NoDup (Dict.keys columns')).
Proof.
  induction cells as [|c cs IH]; intros rows columns rows' columns' H.
  - simpl in H. injection H as <- <-. repeat split; auto.
    + intros c [].
    + intros k. simpl. destruct (Dict.get Z.eqb k rows); simpl; now rewrite ?app_nil_r.
    + intros k. simpl. destruct (Dict.get Z.eqb k columns); simpl; now rewrite ?app_nil_r.
  - simpl in H.
    bind_inv H. bind_inv H. bind_inv H. bind_inv H.
    assert (Hr : cell_key "row" c = Ok v0) by (unfold cell_key; rewrite E; exact E0).
    assert (Hk : cell_key "col" c = Ok v2) by (unfold cell_key; rewrite E1; exact E2).
    apply IH in H. destruct H as (Hall & Hrows & Hcols & Hnr & Hnc).
    repeat split.
    + intros c' [<-|Hin]; eauto.
    + intros k. rewrite Hrows, append_to_group_get. now apply extended_step.
    + intros k. rewrite Hcols, append_to_group_get. now apply extended_step.
    + intros Hnd. now apply Hnr, append_to_group_NoDup.
    + intros Hnd. now apply Hnc, append_to_group_NoDup.
Qed.

(** On cells that all carry integer [row] and [col] attributes the function
    returns. *)
Lemma group_loop_total (cells : list TableCell) :
  (forall c, In c cells ->
     exists r k, cell_key "row" c = Ok r /\ cell_key "col" c = Ok k) ->
  forall rows columns, exists rows' columns',
    group_loop cells rows columns = Ok (rows', columns').
Proof.
  induction cells as [|c cs IH]; intros Hall rows columns; simpl.
  - eauto.
  - destruct (Hall c (or_introl eq_refl)) as (r & k & Hr & Hk).
    unfold cell_key in Hr, Hk.
    destruct (getitem "row" c) as [tr|]; simpl in Hr; [|discriminate].
    destruct (getitem "col" c) as [tk|]; simpl in Hk; [|discriminate].
    simpl. rewrite Hr. simpl. rewrite Hk. simpl.
    apply IH. intros c' Hin. apply Hall. now right.
Qed.

Lemma groups_cells_by_intro (attr : string) (cells : list TableCell) (d : groups) :
  (forall c, In c cells -> exists k, cell_key attr c = Ok k) ->
  (forall k, Dict.get Z.eqb k d = extended None (filter (has_key attr k) cells)) ->
  NoDup (Dict.keys d) ->
  groups_cells_by attr cells d.
Proof.
  intros Hall Hget Hnd.
  assert (Hgrp : forall k l, In (k, l) d -> l <> [] /\ l = filter (has_key attr k) cells).
  { intros k l Hin. apply (DictFacts.In_get Z.eqb Z.eqb_eq) in Hin; auto.
    rewrite Hget in Hin. destruct (filter _ cells); simpl in Hin; [discriminate|].
    injection Hin as <-. split; [discriminate | reflexivity]. }
  assert (Hmem : forall c k, In c cells -> cell_key attr c = Ok k ->
                   exists l, In (k, l) d /\ In c l).
  { intros c k Hin Hk.
    assert (Hf : In c (filter (has_key attr k) cells)).
    { apply filter_In. split; auto. unfold has_key. rewrite Hk. apply Z.eqb_refl. }
    specialize (Hget k). destruct (filter (has_key attr k) cells) as [|x l] eqn:Ef; [destruct Hf|].
    simpl in Hget. exists (x :: l). split; auto.
    now apply (DictFacts.get_In Z.eqb Z.eqb_eq). }
  assert (Hkey : forall c k l, In (k, l) d -> In c l -> cell_key attr c = Ok k).
  { intros c k l Hin Hc. apply Hgrp in Hin. destruct Hin as [_ ->].
    apply filter_In in Hc. destruct Hc as [_ Hc]. unfold has_key in Hc.
    destruct (cell_key attr c); [|discriminate]. apply Z.eqb_eq in Hc. now subst. }
  repeat split; auto.
  - now apply (Hgrp k l).
  - now apply (Hgrp k l).
  - intros c Hin. destruct (Hall c Hin) as (k & Hk). destruct (Hmem c k Hin Hk) as (l & Hl & Hc).
    exists k, l. repeat split; auto.
    intros k' l' Hin' Hc'. pose proof (Hkey c k' l' Hin' Hc') as H'. congruence.
  - intros (k & l & Hl & H1 & H2).
    rewrite (Hkey c1 k l), (Hkey c2 k l); auto.
  - intros Heq. destruct (Hall c1 H) as (k & Hk).
    destruct (Hmem c1 k H Hk) as (l & Hl & Hc). exists k, l. repeat split; auto.
    destruct (Hgrp k l Hl) as [_ ->]. apply filter_In. split; auto.
    unfold has_key. rewrite <- Heq, Hk. apply Z.eqb_refl.
Qed.

Lemma group_cells_returned (cells : list TableCell) (rows columns : groups) :
  group_cells_by_row_and_column cells = Ok (rows, columns) ->
  groups_cells_by "row" cells rows /\ groups_cells_by "col" cells columns.
Proof.
  unfold group_cells_by_row_and_column. intros H.
  apply group_loop_spec in H. destruct H as (Hall & Hrows & Hcols & Hnr & Hnc).
  split; apply groups_cells_by_intro; auto using NoDup_nil.
  - intros c Hin. destruct (Hall c Hin) as (r & k & Hr & Hk). eauto.
  - intros c Hin. destruct (Hall c Hin) as (r & k & Hr & Hk). eauto.
Qed.

(** C5. On cells that carry integer [row] and [col] attributes,
    [group_cells_by_row_and_column] returns, and puts every input cell
    into exactly one row group, keyed by the integer value of its [row]
    attribute, and exactly one column group, keyed by the integer value of
    [col]; two cells share a row (column) group iff these integers are
    equal; every group lists its cells in input order. *)
Theorem C5_group_cells_by_row_and_column (cells : list TableCell) :
  (forall c, In c cells ->
     exists r k, cell_key "row" c = Ok r /\ cell_key "col" c = Ok k) ->
  exists rows columns,
    group_cells_by_row_and_column cells = Ok (rows, columns) /\
    groups_cells_by "row" cells rows /\ groups_cells_by "col" cells columns.
Proof.
  intros Hall. destruct (@group_loop_total cells Hall [] []) as (rows & columns & H).
  exists rows, columns. split; [exact H|]. now apply group_cells_returned.
Qed.

Unset Implicit Arguments.

(** *** The records of a run *)

Lemma renumber_app (n : nat) (a b : list annotation) :
  renumber n (a ++ b) = (renumber n a ++ renumber (n + List.length a) b)%list.
Proof.
  revert n. induction a as [|x a IH]; intros n; simpl.
  - now rewrite Nat.add_0_r.
  - rewrite IH. now rewrite Nat.add_succ_r.
Qed.

Lemma renumber_length (n : nat) (l : list annotation) :
  List.length (renumber n l) = List.length l.
Proof. revert n. induction l; intros n; simpl; auto. Qed.

Lemma renumber_ids (n : nat) (l : list annotation) :
  map ann_id (renumber n l) = seq n (List.length l).
Proof. revert n. induction l as [|a l IH]; intros n; simpl; [|rewrite IH]; reflexivity. Qed.

Lemma anno_template_with_id (n m idx : nat) (pts : list point) (tag : string) (a : annotation) :
  _anno_template n idx pts tag = Ok a ->
  _anno_template m idx pts tag = Ok (with_id m a) /\ ann_id a = n.
Proof.
  unfold _anno_template. intros H.
  destruct (array_min (map fst pts)); cbn [Py.bind] in *; [|discriminate].
  destruct (array_max (map fst pts)); cbn [Py.bind] in *; [|discriminate].
  destruct (array_min (map snd pts)); cbn [Py.bind] in *; [|discriminate].
  destruct (array_max (map snd pts)); cbn [Py.bind] in *; [|discriminate].
  destruct (Dict.get String.eqb tag _categories_conversion); [|discriminate].
  injection H as <-. split; reflexivity.
Qed.

Lemma with_id_same (a : annotation) : with_id (ann_id a) a = a.
Proof. destruct a; reflexivity. Qed.

Lemma emit_boundaries_spec (idx : nat) (tag : string) (bs : list (Z * list point)) :
  forall annos n annos' n',
    emit_boundaries idx tag bs annos n = Ok (annos', n') ->
    exists l, boundary_records idx tag bs = Ok l /\
              annos' = (annos ++ renumber n l)%list /\ n' = n + List.length l.
Proof.
  induction bs as [|[k pts] bs IH]; intros annos n annos' n' H;
    cbn [emit_boundaries boundary_records] in *.
  - injection H as <- <-. exists []. simpl. now rewrite app_nil_r, Nat.add_0_r.
  - destruct (3 <=? List.length pts)%nat.
    + bind_inv H. apply IH in H. destruct H as (l & Hl & -> & ->).
      destruct (anno_template_with_id n 0 idx pts tag v E) as [E0 Hid].
      rewrite E0. simpl. rewrite Hl. simpl. eexists. split; [reflexivity|].
      simpl. rewrite <- app_assoc. simpl.
      replace (with_id n (with_id 0 v)) with v
        by (rewrite <- (with_id_same v) at 1; rewrite Hid; reflexivity).
      rewrite Nat.add_1_r. split; [reflexivity | lia].
    + now apply IH.
Qed.

Lemma convert_region_spec (S : Shapely) (idx : nat) (item : TableRegion)
      (annos : list annotation) (n : nat) (annos' : list annotation) (n' : nat) :
  convert_region S idx item annos n = Ok (annos', n') ->
  exists l, region_records S idx item = Ok l /\
            annos' = (annos ++ renumber n l)%list /\ n' = n + List.length l.
Proof.
  unfold convert_region, region_records. intros H.
  bind_inv H. destruct v as [rows columns]. rewrite E. simpl.
  bind_inv H. rewrite E0. simpl.
  bind_inv H. destruct v0 as [annos1 n1].
  apply emit_boundaries_spec in E1. destruct E1 as (r & Hr & -> & ->).
  rewrite Hr. simpl.
  bind_inv H. rewrite E1. simpl.
  apply emit_boundaries_spec in H. destruct H as (c & Hc & -> & ->).
  rewrite Hc. simpl. eexists. split; [reflexivity|].
  rewrite renumber_app, length_app, <- app_assoc. split; [reflexivity | lia].
Qed.

Lemma convert_regions_spec (S : Shapely) (idx : nat) (items : list TableRegion) :
  forall annos n annos' n',
    convert_regions S idx items annos n = Ok (annos', n') ->
    exists l, regions_records S idx items = Ok l /\
              annos' = (annos ++ renumber n l)%list /\ n' = n + List.length l.
Proof.
  induction items as [|item items IH]; intros annos n annos' n' H; simpl in *.
  - injection H as <- <-. exists []. simpl. now rewrite app_nil_r, Nat.add_0_r.
  - bind_inv H. destruct v as [annos1 n1].
    apply convert_region_spec in E. destruct E as (a & Ha & -> & ->).
    apply IH in H. destruct H as (b & Hb & -> & ->).
    rewrite Ha, Hb. simpl. eexists. split; [reflexivity|].
    rewrite renumber_app, length_app, <- app_assoc. split; [reflexivity | lia].
Qed.

Lemma convert_file_spec (S : Shapely) (self : PRIMADataset) (idx : nat) (image_id : string)
      (st st' : state) :
  convert_file S self idx image_id st = Ok st' ->
  exists l, file_records S self idx image_id = Ok l /\
            all_anno_infos st' = (all_anno_infos st ++ renumber (anno_id st) l)%list /\
            anno_id st' = anno_id st + List.length l /\
            all_image_infos st' = (all_image_infos st ++ file_images self idx image_id)%list.
Proof.
  unfold convert_file, file_records, file_images. intros H.
  destruct (Dict.get String.eqb (image_id ++ ".jpg") (Images (disk self))).
  - bind_inv H. rewrite E. simpl. bind_inv H. destruct v0 as [annos n].
    apply convert_regions_spec in E0. destruct E0 as (l & Hl & -> & ->).
    injection H as <-. simpl. eauto.
  - injection H as <-. exists []. simpl. now rewrite !app_nil_r, Nat.add_0_r.
Qed.

Lemma convert_files_spec (S : Shapely) (self : PRIMADataset) (items : list (nat * string)) :
  forall st st',
    convert_files S self items st = Ok st' ->
    exists ls, files_records S self items = Ok ls /\
      all_anno_infos st' = (all_anno_infos st ++ renumber (anno_id st) (List.concat ls))%list /\
      anno_id st' = anno_id st + List.length (List.concat ls) /\
      all_image_infos st' =
        (all_image_infos st ++ flat_map (fun it => file_images self (fst it) (snd it)) items)%list.
Proof.
  induction items as [|[idx image_id] items IH]; intros st st' H; simpl in *.
  - injection H as <-. exists []. simpl. now rewrite !app_nil_r, Nat.add_0_r.
  - bind_inv H. apply convert_file_spec in E. destruct E as (a & Ha & E1 & E2 & E3).
    apply IH in H. destruct H as (b & Hb & H1 & H2 & H3).
    rewrite Ha, Hb. simpl. eexists. split; [reflexivity|].
    rewrite H1, H2, H3, E1, E2, E3. simpl.
    rewrite renumber_app, length_app, <- !app_assoc. repeat split; lia.
Qed.

(** The shape of a successful run. *)
Lemma convert_to_COCO_spec (S : Shapely) (self : PRIMADataset) (out : coco) :
  convert_to_COCO S self = Ok out ->
  exists ls, files_records S self (enumerate (_ids self)) = Ok ls /\
    annotations out = renumber 0 (List.concat ls) /\
    images out = flat_map (fun it => file_images self (fst it) (snd it))
                          (enumerate (_ids self)) /\
    categories out = _categories.
Proof.
  unfold convert_to_COCO. intros H. bind_inv H.
  apply convert_files_spec in E. destruct E as (ls & Hls & H1 & _ & H3).
  injection H as <-. simpl in *. eauto.
Qed.

(** *** Where a record comes from *)

Lemma enumerate_In {A : Type} (l : list A) (i : nat) (x : A) :
  In (i, x) (enumerate l) <-> nth_error l i = Some x.
Proof.
  unfold enumerate.
  assert (H : forall s, In (i, x) (combine (seq s (List.length l)) l) <->
                        s <= i /\ nth_error l (i - s) = Some x).
  { induction l as [|y l IH]; intros s; simpl.
    - split; [tauto|]. intros [_ H]. destruct (i - s); discriminate.
    - rewrite IH. split.
      + intros [H|[H1 H2]].
        * injection H as -> ->. rewrite Nat.sub_diag. auto.
        * split; [lia|]. replace (i - s) with (Datatypes.S (i - Datatypes.S s)) by lia. exact H2.
      + intros [H1 H2]. destruct (Nat.eq_dec s i) as [->|Hne].
        * rewrite Nat.sub_diag in H2. injection H2 as ->. now left.
        * right. split; [lia|].
          replace (i - s) with (Datatypes.S (i - Datatypes.S s)) in H2 by lia. exact H2. }
  rewrite H, Nat.sub_0_r. split; [tauto | intros; split; [lia | assumption]].
Qed.

Lemma boundary_records_In (idx : nat) (tag : string) (bs : list (Z * list point)) :
  forall l a, boundary_records idx tag bs = Ok l -> In a l ->
    exists k pts, In (k, pts) bs /\ 3 <= List.length pts /\
                  _anno_template 0 idx pts tag = Ok a.
Proof.
  induction bs as [|[k pts] bs IH]; intros l a H Hin; cbn [boundary_records] in H.
  - injection H as <-. destruct Hin.
  - destruct (Nat.leb_spec 3 (List.length pts)) as [Hle|Hlt].
    + bind_inv H. bind_inv H. injection H as <-. destruct Hin as [<-|Hin].
      * exists k, pts. simpl. auto.
      * destruct (IH _ _ E0 Hin) as (k' & pts' & H1 & H2). exists k', pts'. simpl. auto.
    + destruct (IH _ _ H Hin) as (k' & pts' & H1 & H2). exists k', pts'. simpl. auto.
Qed.

Lemma regions_records_In (S : Shapely) (idx : nat) (items : list TableRegion) :
  forall l a, regions_records S idx items = Ok l -> In a l ->
    exists item rows columns d tag bs k pts,
      In item items /\
      group_cells_by_row_and_column (TableCells item) = Ok (rows, columns) /\
      ((tag = "TableRow" /\ d = rows) \/ (tag = "TableColumn" /\ d = columns)) /\
      calculate_group_boundaries S d = Ok bs /\
      In (k, pts) bs /\ 3 <= List.length pts /\ _anno_template 0 idx pts tag = Ok a.
Proof.
  induction items as [|item items IH]; intros l a H Hin; simpl in H.
  - injection H as <-. destruct Hin.
  - bind_inv H. bind_inv H. injection H as <-. apply in_app_or in Hin.
    destruct Hin as [Hin|Hin].
    + unfold region_records in E. bind_inv E. destruct v1 as [rows columns].
      bind_inv E. bind_inv E. bind_inv E. bind_inv E. injection E as <-.
      apply in_app_or in Hin. destruct Hin as [Hin|Hin].
      * destruct (boundary_records_In _ _ _ _ _ E3 Hin) as (k & pts & H1 & H2 & H3).
        exists item, rows, columns, rows, "TableRow", v1, k, pts. simpl. intuition.
      * destruct (boundary_records_In _ _ _ _ _ E5 Hin) as (k & pts & H1 & H2 & H3).
        exists item, rows, columns, columns, "TableColumn", v3, k, pts. simpl. intuition.
    + destruct (IH _ _ E0 Hin) as (it & rows & columns & d & tag & bs & k & pts & H1 & H2).
      exists it, rows, columns, d, tag, bs, k, pts. simpl. intuition.
Qed.

Lemma files_records_In (S : Shapely) (self : PRIMADataset) (items : list (nat * string)) :
  forall ls l a, files_records S self items = Ok ls -> In l ls -> In a l ->
    (forall idx image_id, In (idx, image_id) items ->
                          nth_error (_ids self) idx = Some image_id) ->
    emitted S self a.
Proof.
  induction items as [|[idx image_id] items IH]; intros ls l a H Hl Hin Hitems; simpl in H.
  - injection H as <-. destruct Hl.
  - bind_inv H. bind_inv H. injection H as <-. destruct Hl as [<-|Hl].
    + unfold file_records in E.
      destruct (Dict.get String.eqb (image_id ++ ".jpg") (Images (disk self))) eqn:Eimg.
      * bind_inv E.
        destruct (regions_records_In _ _ _ _ _ E Hin)
          as (it & rows & columns & d & tag & bs & k & pts & H1 & H2 & H3 & H4 & H5 & H6 & H7).
        eapply emitted_intro with (idx := idx) (image_id := image_id); eauto.
        -- apply Hitems. now left.
        -- rewrite Eimg. discriminate.
      * injection E as <-. destruct Hin.
    + eapply IH; eauto. intros. apply Hitems. now right.
Qed.

Lemma In_renumber (n : nat) (l : list annotation) (a : annotation) :
  In a (renumber n l) -> exists a0, In a0 l /\ a = with_id (ann_id a) a0.
Proof.
  revert n. induction l as [|x l IH]; intros n; simpl; [tauto|].
  intros [<-|H]; [exists x; auto | destruct (IH _ H) as (a0 & H1 & H2); eauto].
Qed.

Lemma anno_template_id0 (idx : nat) (pts : list point) (tag : string) (a : annotation) :
  _anno_template 0 idx pts tag = Ok a -> forall i, _anno_template i idx pts tag = Ok (with_id i a).
Proof. intros H i. now destruct (@anno_template_with_id 0 i idx pts tag a H). Qed.

(** Every record of a successful run is an emitted record with a number. *)
Lemma annotations_emitted (S : Shapely) (self : PRIMADataset) (out : coco) (a : annotation) :
  convert_to_COCO S self = Ok out -> In a (annotations out) ->
  exists a0, emitted S self a0 /\ a = with_id (ann_id a) a0.
Proof.
  intros H Hin. apply convert_to_COCO_spec in H. destruct H as (ls & Hls & Hann & _).
  rewrite Hann in Hin. apply In_renumber in Hin. destruct Hin as (a0 & Hin & Ha).
  apply in_concat in Hin. destruct Hin as (l & Hl & Hin).
  exists a0. split; auto.
  eapply files_records_In; eauto. intros idx image_id. apply enumerate_In.
Qed.

(** *** The sample run *)

Example sample_ids : _ids (__init__ sample_disk) = ["a"; "b"].
Proof. reflexivity. Qed.

Example sample_run : convert_to_COCO Rings (__init__ sample_disk) = Ok sample_out.
Proof. vm_compute. reflexivity. Qed.

Example sample_counts :
  List.length (annotations sample_out) = 6 /\ List.length (images sample_out) = 2.
Proof. vm_compute. split; reflexivity. Qed.

(** *** Categories *)

Lemma anno_template_fields (n idx : nat) (pts : list point) (tag : string) (a : annotation) :
  _anno_template n idx pts tag = Ok a ->
  exists x_1 x_2 y_1 y_2 cat,
    array_min (map fst pts) = Ok x_1 /\ array_max (map fst pts) = Ok x_2 /\
    array_min (map snd pts) = Ok y_1 /\ array_max (map snd pts) = Ok y_2 /\
    Dict.get String.eqb tag _categories_conversion = Some cat /\
    a = {| segmentation := [flatten pts]; area := cal_ployarea pts; iscrowd := 0;
           image_id := idx; bbox := [x_1; y_1; (x_2 - x_1)%Q; (y_2 - y_1)%Q];
           category_id := cat; ann_id := n |}.
Proof.
  unfold _anno_template. intros H.
  destruct (array_min (map fst pts)) as [x_1|]; cbn [Py.bind] in *; [|discriminate].
  destruct (array_max (map fst pts)) as [x_2|]; cbn [Py.bind] in *; [|discriminate].
  destruct (array_min (map snd pts)) as [y_1|]; cbn [Py.bind] in *; [|discriminate].
  destruct (array_max (map snd pts)) as [y_2|]; cbn [Py.bind] in *; [|discriminate].
  destruct (Dict.get String.eqb tag _categories_conversion) as [cat|]; [|discriminate].
  injection H as <-. exists x_1, x_2, y_1, y_2, cat. repeat split; reflexivity.
Qed.

Lemma emitted_category (S : Shapely) (self : PRIMADataset) (a : annotation) :
  emitted S self a -> category_id a = 1%Z \/ category_id a = 2%Z.
Proof.
  intros [idx image_id anno item rows columns d tag bs k pts _ _ _ _ _ Htag _ _ _ Ht].
  apply anno_template_fields in Ht.
  destruct Ht as (x_1 & x_2 & y_1 & y_2 & cat & _ & _ & _ & _ & Hcat & ->). simpl.
  destruct Htag as [[-> _]|[-> _]]; vm_compute in Hcat; injection Hcat as <-; auto.
Qed.

(** C7. Every record of the output has category 1 (TableRow) or 2
    (TableColumn), and the categories of the output are exactly these two. *)
Theorem C7_two_categories (S : Shapely) (self : PRIMADataset) (out : coco) :
  convert_to_COCO S self = Ok out ->
  (forall a, In a (annotations out) -> category_id a = 1%Z \/ category_id a = 2%Z) /\
  categories out =
    [ {| supercategory := "layout"; cat_id := 1; name := "TableRow" |};
      {| supercategory := "layout"; cat_id := 2; name := "TableColumn" |} ].
Proof.
  intros H. split.
  - intros a Hin. destruct (annotations_emitted S self out a H Hin) as (a0 & Hem & ->).
    simpl. exact (emitted_category S self a0 Hem).
  - apply convert_to_COCO_spec in H. destruct H as (ls & _ & _ & _ & ->). reflexivity.
Qed.

Lemma C7_two_categories_witness :
  (forall a, In a (annotations sample_out) -> category_id a = 1%Z \/ category_id a = 2%Z) /\
  categories sample_out =
    [ {| supercategory := "layout"; cat_id := 1; name := "TableRow" |};
      {| supercategory := "layout"; cat_id := 2; name := "TableColumn" |} ].
Proof. exact (C7_two_categories Rings (__init__ sample_disk) sample_out sample_run). Defined.

(** *** Numbering *)

Lemma emitted_id (S : Shapely) (self : PRIMADataset) (a : annotation) :
  emitted S self a -> ann_id a = 0.
Proof.
  intros [idx image_id anno item rows columns d tag bs k pts _ _ _ _ _ _ _ _ _ Ht].
  now destruct (anno_template_with_id 0 0 idx pts tag a Ht).
Qed.

Lemma renumber_forget (n : nat) (l : list annotation) :
  (forall a, In a l -> ann_id a = 0) -> map (with_id 0) (renumber n l) = l.
Proof.
  revert n. induction l as [|a l IH]; intros n H; simpl; [reflexivity|].
  rewrite IH by (intros; apply H; now right).
  f_equal. unfold with_id. simpl. rewrite <- (H a (or_introl eq_refl)). now destruct a.
Qed.

Lemma file_images_id (self : PRIMADataset) (idx : nat) (image_id : string) (im : image_info) :
  In im (file_images self idx image_id) ->
  img_id im = idx /\ file_name im = (image_id ++ ".jpg")%string.
Proof.
  unfold file_images.
  destruct (Dict.get String.eqb (image_id ++ ".jpg") (Images (disk self))) as [[w h]|];
    simpl; [|tauto].
  intros [<-|[]]. split; reflexivity.
Qed.

(** C8. The numbers of the records are 0, 1, 2, ... in the order of the
    output, hence unique; without their numbers the records are the
    contributions of the files in dataset order, each file's regions in
    document order and each region's row records before its column records
    ([files_records]); an image record's number is the index of its file in
    the list of ids. *)
Theorem C8_record_numbers (S : Shapely) (self : PRIMADataset) (out : coco) :
  convert_to_COCO S self = Ok out ->
  map ann_id (annotations out) = seq 0 (List.length (annotations out)) /\
  NoDup (map ann_id (annotations out)) /\
  (exists ls, files_records S self (enumerate (_ids self)) = Ok ls /\
              map (with_id 0) (annotations out) = List.concat ls) /\
  (forall im, In im (images out) ->
     exists image_id, nth_error (_ids self) (img_id im) = Some image_id /\
                      file_name im = (image_id ++ ".jpg")%string).
Proof.
  intros H. pose proof (convert_to_COCO_spec S self out H) as (ls & Hls & Hann & Himg & _).
  assert (Hseq : map ann_id (annotations out) = seq 0 (List.length (annotations out))).
  { rewrite Hann, renumber_ids, renumber_length. reflexivity. }
  repeat split.
  - exact Hseq.
  - rewrite Hseq. apply seq_NoDup.
  - exists ls. split; [exact Hls|]. rewrite Hann. apply renumber_forget.
    intros a Hin. apply in_concat in Hin. destruct Hin as (l & Hl & Hin).
    apply (emitted_id S self). eapply files_records_In; eauto.
    intros idx image_id. apply enumerate_In.
  - intros im Hin. rewrite Himg in Hin. apply in_flat_map in Hin.
    destruct Hin as ([idx image_id] & Hit & Hin). simpl in Hin.
    apply file_images_id in Hin. destruct Hin as [-> ->].
    exists image_id. split; [|reflexivity]. now apply enumerate_In.
Qed.

Lemma C8_record_numbers_witness :
  map ann_id (annotations sample_out) = [0; 1; 2; 3; 4; 5] /\
  map img_id (images sample_out) = [0; 1].
Proof.
  destruct (C8_record_numbers Rings (__init__ sample_disk) sample_out sample_run)
    as (Hseq & _).
  split; [exact Hseq | reflexivity].
Defined.

Local Open Scope Q_scope.

(** *** Bounding box and area *)








Lemma sample_record_In : In sample_record (annotations sample_out).
Proof. vm_compute. left. reflexivity. Qed.

Local Close Scope Q_scope.

(** *** How many records a region yields *)

Lemma boundary_records_length (idx : nat) (tag : string) (bs : list (Z * list point)) :
  forall l, boundary_records idx tag bs = Ok l ->
            List.length l = List.length (filter long_enough bs).
Proof.
  induction bs as [|[k pts] bs IH]; intros l H; cbn [boundary_records] in H.
  - now injection H as <-.
  - cbn [filter]. unfold long_enough at 1. cbn [snd].
    destruct (3 <=? List.length pts).
    + bind_inv H. bind_inv H. injection H as <-. simpl. f_equal. now apply IH.
    + now apply IH.
Qed.

Lemma cell_polygons_no_points (S : Shapely) (cells : list TableCell) :
  forall polys, cell_polygons S cells = Ok polys ->
                list_sum (map cell_point_count cells) = 0 -> polys = [].
Proof.
  induction cells as [|c cells IH]; intros polys H Hsum; cbn [cell_polygons] in H.
  - now injection H as <-.
  - bind_inv H.
    simpl in Hsum. unfold cell_point_count at 1 in Hsum. rewrite E in Hsum.
    assert (Hv : List.length v = 0) by lia. destruct v; [|discriminate].
    simpl in H. apply IH; [assumption | simpl in Hsum; lia].
Qed.

(** *** The polygon of a record *)

Lemma cell_polygons_spec (S : Shapely) (cells : list TableCell) :
  forall polys, cell_polygons S cells = Ok polys ->
    exists outlines, outlines_of cells outlines /\ group_polygons S outlines polys.
Proof.
  unfold outlines_of, group_polygons.
  induction cells as [|c cells IH]; intros polys H; cbn [cell_polygons] in H.
  - injection H as <-. exists []. split; constructor.
  - bind_inv H. destruct (3 <=? List.length v) eqn:Elen.
    + bind_inv H. bind_inv H. injection H as <-.
      destruct (IH _ E1) as (os & Hos & Hps).
      exists (v :: os). split; [now constructor|].
      cbn [filter]. rewrite Elen. now constructor.
    + destruct (IH _ H) as (os & Hos & Hps).
      exists (v :: os). split; [now constructor|].
      cbn [filter]. now rewrite Elen.
Qed.






(** *** What becomes of a group *)

Lemma max_area_from_first (S : Shapely) (l : list (geometry S)) :
  forall pre best mid,
    (forall q, In q pre -> (geom_area S q < geom_area S best)%Q) ->
    (forall q, In q mid -> (geom_area S q <= geom_area S best)%Q) ->
    first_largest S (pre ++ best :: mid ++ l)%list (max_area_from S best l).
Proof.
  induction l as [|p l IH]; intros pre best mid Hpre Hmid; cbn [max_area_from].
  - exists pre, mid. rewrite app_nil_r. auto.
  - destruct (Qle_bool (geom_area S p) (geom_area S best)) eqn:E.
    + apply Qle_bool_iff in E.
      replace (pre ++ best :: mid ++ p :: l)%list with (pre ++ best :: (mid ++ [p]) ++ l)%list
        by now rewrite <- app_assoc.
      apply IH; [exact Hpre|].
      intros q Hq. apply in_app_or in Hq. destruct Hq as [Hq|[<-|[]]]; auto.
    + assert (Hlt : (geom_area S best < geom_area S p)%Q).
      { apply Qnot_le_lt. intros Hle. apply Qle_bool_iff in Hle. congruence. }
      replace (pre ++ best :: mid ++ p :: l)%list with ((pre ++ best :: mid) ++ p :: [] ++ l)%list
        by now rewrite <- app_assoc.
      apply IH; [|intros q []].
      intros q Hq. apply in_app_or in Hq. destruct Hq as [Hq|[<-|Hq]].
      * eapply Qlt_trans; [apply Hpre; exact Hq | exact Hlt].
      * exact Hlt.
      * eapply Qle_lt_trans; [apply Hmid; exact Hq | exact Hlt].
Qed.

Lemma max_area_first (S : Shapely) (l : list (geometry S)) (p : geometry S) :
  max_area S l = Ok p -> first_largest S l p.
Proof.
  destruct l as [|g gs]; [discriminate|]. intros [= <-].
  apply (max_area_from_first S gs [] g []); intros q [].
Qed.

Lemma no_usable_outline (S : Shapely) (outlines : list (list point)) :
  group_polygons S outlines [] -> Forall (fun outline => List.length outline < 3) outlines.
Proof.
  unfold group_polygons. intros H. apply Forall2_length in H. cbn [List.length] in H.
  induction outlines as [|o os IH]; constructor; cbn [filter] in H;
    destruct (Nat.leb_spec 3 (List.length o)) as [Hle|Hlt]; try discriminate H.
  - exact Hlt.
  - exact (IH H).
Qed.

Lemma calculate_group_boundaries_outcomes (S : Shapely) (d : groups) :
  forall bs, calculate_group_boundaries S d = Ok bs ->
    exists outcomes,
      Forall2 (classified S) d outcomes /\
      List.length (filter long_enough bs) + List.length (filter skipped outcomes)
      = List.length d.
Proof.
  induction d as [|[k cells] d IH]; intros bs H; cbn [calculate_group_boundaries] in H.
  - injection H as <-. exists []. split; [constructor | reflexivity].
  - bind_inv H. rename v into polys.
    destruct (cell_polygons_spec S cells polys E) as (outlines & Hout & Hgp).
    assert (Hstep : forall o bs0 bs',
              group_outcome S (k, cells) o ->
              (o = NoUsableCell \/ polys <> []) ->
              calculate_group_boundaries S d = Ok bs' ->
              List.length (filter long_enough bs0) + (if skipped o then 1 else 0) = 1 ->
              exists outcomes,
                Forall2 (classified S) ((k, cells) :: d) outcomes /\
                List.length (filter long_enough (bs0 ++ bs')%list)
                + List.length (filter skipped outcomes)
                = List.length ((k, cells) :: d)).
    { intros o bs0 bs' Ho Hz H' Hn. destruct (IH _ H') as (os & Hos & Hlen).
      exists (o :: os). split.
      - constructor; [|exact Hos]. split; [exact Ho|].
        intros Hzero. destruct Hz as [Hz|Hz]; [exact Hz|]. exfalso. apply Hz.
        exact (cell_polygons_no_points S cells polys E Hzero).
      - rewrite filter_app, length_app. cbn [filter List.length].
        destruct (skipped o); cbn [List.length]; lia. }
    destruct polys as [|p ps].
    + apply (Hstep NoUsableCell [] bs); auto.
      exists outlines, []. split; [exact Hout|]. split; [exact Hgp|].
      now apply (no_usable_outline S).
    + cbv zeta in H.
      destruct (String.eqb_spec (geom_type S (unary_union S (p :: ps))) "Polygon") as [Ep|Np].
      * bind_inv H. injection H as <-.
        set (pts := exterior_coords S (unary_union S (p :: ps))).
        assert (Hb : group_boundary S (p :: ps) pts) by (left; split; [exact Ep | reflexivity]).
        destruct (Nat.leb_spec 3 (List.length pts)) as [Hl|Hl].
        -- apply (Hstep Recorded [(k, pts)] v); auto.
           ++ exists outlines, (p :: ps). split; [exact Hout|]. split; [exact Hgp|].
              split; [discriminate|]. exists pts. auto.
           ++ right. discriminate.
           ++ cbn [filter]. unfold long_enough. cbn [snd].
              destruct (Nat.leb_spec 3 (List.length pts)); [reflexivity | lia].
        -- apply (Hstep ShortBoundary [(k, pts)] v); auto.
           ++ exists outlines, (p :: ps). split; [exact Hout|]. split; [exact Hgp|].
              split; [discriminate|]. exists pts. auto.
           ++ right. discriminate.
           ++ cbn [filter]. unfold long_enough. cbn [snd].
              destruct (Nat.leb_spec 3 (List.length pts)); [lia | reflexivity].
      * destruct (String.eqb_spec (geom_type S (unary_union S (p :: ps))) "MultiPolygon")
          as [Em|Nm].
        -- bind_inv H. rename v into largest. bind_inv H. injection H as <-.
           set (pts := exterior_coords S largest).
           assert (Hb : group_boundary S (p :: ps) pts).
           { right. split; [exact Em|]. exists largest.
             split; [now apply max_area_first | reflexivity]. }
           destruct (Nat.leb_spec 3 (List.length pts)) as [Hl|Hl].
           ++ apply (Hstep Recorded [(k, pts)] v); auto.
              ** exists outlines, (p :: ps). split; [exact Hout|]. split; [exact Hgp|].
                 split; [discriminate|]. exists pts. auto.
              ** right. discriminate.
              ** cbn [filter]. unfold long_enough. cbn [snd].
                 destruct (Nat.leb_spec 3 (List.length pts)); [reflexivity | lia].
           ++ apply (Hstep ShortBoundary [(k, pts)] v); auto.
              ** exists outlines, (p :: ps). split; [exact Hout|]. split; [exact Hgp|].
                 split; [discriminate|]. exists pts. auto.
              ** right. discriminate.
              ** cbn [filter]. unfold long_enough. cbn [snd].
                 destruct (Nat.leb_spec 3 (List.length pts)); [lia | reflexivity].
        -- apply (Hstep NotPolygonal [] bs); auto.
           ++ exists outlines, (p :: ps). split; [exact Hout|]. split; [exact Hgp|].
              split; [discriminate|]. auto.
           ++ right. discriminate.
Qed.

(** C1, as the code has it.  For every table region, every row group and
    every column group has one outcome: it is recorded, or no cell of it
    has at least three points (so for every group without points), or the
    union of its polygons is neither a Polygon nor a MultiPolygon, or its
    boundary has fewer than three points.  The number of records emitted
    is the number of row groups plus the number of column groups, minus
    the groups that are not recorded. *)
Theorem C1_records_per_region (S : Shapely) (idx : nat) (item : TableRegion)
        (annos : list annotation) (n : nat) (annos' : list annotation) (n' : nat) :
  convert_region S idx item annos n = Ok (annos', n') ->
  exists rows columns new row_outcomes column_outcomes,
    group_cells_by_row_and_column (TableCells item) = Ok (rows, columns) /\
    annos' = (annos ++ new)%list /\ n' = n + List.length new /\
    Forall2 (classified S) rows row_outcomes /\
    Forall2 (classified S) columns column_outcomes /\
    List.length new + List.length (filter skipped (row_outcomes ++ column_outcomes)%list)
    = List.length rows + List.length columns.
Proof.
  unfold convert_region. intros H.
  bind_inv H. destruct v as [rows columns].
  bind_inv H. bind_inv H. destruct v0 as [annos1 n1]. bind_inv H.
  apply emit_boundaries_spec in E1. destruct E1 as (r & Hr & -> & ->).
  apply emit_boundaries_spec in H. destruct H as (c & Hc & -> & ->).
  destruct (calculate_group_boundaries_outcomes S _ _ E0) as (ro & Hro & Hrl).
  destruct (calculate_group_boundaries_outcomes S _ _ E2) as (co & Hco & Hcl).
  exists rows, columns, (renumber n r ++ renumber (n + List.length r) c)%list, ro, co.
  split; [exact E|]. split; [now rewrite app_assoc|].
  rewrite length_app, !renumber_length. split; [lia|].
  split; [exact Hro|]. split; [exact Hco|].
  rewrite (boundary_records_length _ _ _ _ Hr), (boundary_records_length _ _ _ _ Hc).
  rewrite filter_app, length_app. lia.
Qed.

Example table_2x2_run :
  convert_region Rings 0 table_2x2 [] 0 = Ok (fst table_2x2_records, snd table_2x2_records).
Proof. vm_compute. reflexivity. Qed.

Lemma C1_records_per_region_witness :
  exists rows columns new row_outcomes column_outcomes,
    group_cells_by_row_and_column (TableCells table_2x2) = Ok (rows, columns) /\
    fst table_2x2_records = ([] ++ new)%list /\
    snd table_2x2_records = 0 + List.length new /\
    Forall2 (classified Rings) rows row_outcomes /\
    Forall2 (classified Rings) columns column_outcomes /\
    List.length new + List.length (filter skipped (row_outcomes ++ column_outcomes)%list)
    = List.length rows + List.length columns.
Proof. exact (C1_records_per_region Rings 0 table_2x2 [] 0 _ _ table_2x2_run). Defined.

(** The claim as the specification words it fails on a region whose only
    cell has a two-point outline: its row group and its column group each
    hold two points, no group has zero points, and no record is emitted. *)
Lemma C1_zero_point_groups_counterexample :
  (forall S : Shapely, convert_region S 0 table_segment [] 0 = Ok ([], 0)) /\
  exists rows columns,
    group_cells_by_row_and_column (TableCells table_segment) = Ok (rows, columns) /\
    List.length rows = 1 /\ List.length columns = 1 /\
    map group_point_count rows = [2] /\ map group_point_count columns = [2] /\
    zero_point_groups rows = 0 /\ zero_point_groups columns = 0 /\
    0 <> List.length rows + List.length columns
         - (zero_point_groups rows + zero_point_groups columns).
Proof.
  split; [intros S; reflexivity|].
  eexists. eexists. split; [vm_compute; reflexivity|].
  repeat split; try reflexivity. simpl. discriminate.
Qed.

(** *** Independence of the files *)

Lemma differ_only_in_ids (f : string) (d1 d2 : Disk) :
  differ_only_in f d1 d2 -> _ids (__init__ d1) = _ids (__init__ d2).
Proof.
  intros (_ & Hn & _). simpl. unfold find_all_image_ids, find_all_annotation_files.
  now rewrite Hn.
Qed.

Lemma differ_only_in_mem (f : string) (d1 d2 : Disk) (n : string) :
  differ_only_in f d1 d2 ->
  Dict.mem String.eqb n (XML d1) = Dict.mem String.eqb n (XML d2).
Proof.
  intros (_ & Hn & _). unfold Dict.mem.
  destruct (Dict.get String.eqb n (XML d1)) eqn:E1;
    destruct (Dict.get String.eqb n (XML d2)) eqn:E2; try reflexivity; exfalso.
  - apply (DictFacts.get_None_keys String.eqb String.eqb_eq) in E2.
    apply E2. unfold Dict.keys. rewrite <- Hn.
    apply (DictFacts.get_In String.eqb String.eqb_eq) in E1.
    now apply (in_map fst) in E1.
  - apply (DictFacts.get_None_keys String.eqb String.eqb_eq) in E1.
    apply E1. unfold Dict.keys. rewrite Hn.
    apply (DictFacts.get_In String.eqb String.eqb_eq) in E2.
    now apply (in_map fst) in E2.
Qed.

Lemma load_annotation_same (f : string) (d1 d2 : Disk) (idx : nat) :
  differ_only_in f d1 d2 ->
  annotation_file (__init__ d1) idx <> Some f ->
  load_annotation (__init__ d1) idx = load_annotation (__init__ d2) idx.
Proof.
  intros Hd Hf. unfold load_annotation, annotation_file in *.
  rewrite <- (differ_only_in_ids f d1 d2 Hd).
  destruct (nth_error (_ids (__init__ d1)) idx) as [image_id|]; [|reflexivity].
  pose proof (differ_only_in_mem f d1 d2 ("pc-" ++ image_id ++ ".xml") Hd) as M1.
  pose proof (differ_only_in_mem f d1 d2 (image_id ++ ".xml") Hd) as M2.
  destruct Hd as (_ & _ & Hget). unfold Dict.mem in *. cbn [disk __init__] in *.
  destruct (Dict.get String.eqb ("pc-" ++ image_id ++ ".xml") (XML d1)) eqn:E1.
  - rewrite <- Hget, E1; [reflexivity | congruence].
  - destruct (Dict.get String.eqb ("pc-" ++ image_id ++ ".xml") (XML d2)); [discriminate|].
    destruct (Dict.get String.eqb (image_id ++ ".xml") (XML d1)) eqn:E2.
    + rewrite <- Hget, E2; [reflexivity | congruence].
    + destruct (Dict.get String.eqb (image_id ++ ".xml") (XML d2)); [discriminate | reflexivity].
Qed.

Lemma file_records_same (S : Shapely) (f : string) (d1 d2 : Disk) (idx : nat)
      (image_id : string) :
  differ_only_in f d1 d2 ->
  annotation_file (__init__ d1) idx <> Some f ->
  file_records S (__init__ d1) idx image_id = file_records S (__init__ d2) idx image_id.
Proof.
  intros Hd Hf. unfold file_records.
  rewrite (load_annotation_same f d1 d2 idx Hd Hf).
  destruct Hd as (Himg & _). cbn [disk __init__]. now rewrite Himg.
Qed.

Lemma file_records_image_id (S : Shapely) (self : PRIMADataset) (idx : nat)
      (image_id0 : string) (l : list annotation) (a : annotation) :
  file_records S self idx image_id0 = Ok l -> In a l -> image_id a = idx.
Proof.
  unfold file_records.
  destruct (Dict.get String.eqb (image_id0 ++ ".jpg") (Images (disk self))).
  - intros H Hin. bind_inv H.
    destruct (regions_records_In _ _ _ _ _ H Hin)
      as (it & rows & columns & d & tag & bs & k & pts & _ & _ & _ & _ & _ & _ & Ht).
    apply anno_template_fields in Ht.
    destruct Ht as (x_1 & x_2 & y_1 & y_2 & cat & _ & _ & _ & _ & _ & ->). reflexivity.
  - intros [= <-] [].
Qed.

Lemma filter_none {A : Type} (p : A -> bool) (l : list A) :
  (forall x, In x l -> p x = false) -> filter p l = [].
Proof.
  induction l as [|x l IH]; intros H; simpl; [reflexivity|].
  rewrite (H x (or_introl eq_refl)). apply IH. intros y Hy. apply H. now right.
Qed.

Lemma files_records_filter (S : Shapely) (self1 self2 : PRIMADataset) (idx : nat)
      (items : list (nat * string)) :
  forall ls1 ls2,
    files_records S self1 items = Ok ls1 ->
    files_records S self2 items = Ok ls2 ->
    (forall image_id, In (idx, image_id) items ->
       file_records S self1 idx image_id = file_records S self2 idx image_id) ->
    filter (fun a => image_id a =? idx) (List.concat ls1)
    = filter (fun a => image_id a =? idx) (List.concat ls2).
Proof.
  induction items as [|[i id] items IH]; intros ls1 ls2 H1 H2 Hsame; simpl in H1, H2.
  - injection H1 as <-. injection H2 as <-. reflexivity.
  - bind_inv H1. bind_inv H1. injection H1 as <-.
    bind_inv H2. bind_inv H2. injection H2 as <-.
    simpl. rewrite !filter_app. f_equal.
    + destruct (Nat.eq_dec i idx) as [->|Hne].
      * rewrite (Hsame id (or_introl eq_refl)) in E. congruence.
      * rewrite !filter_none; [reflexivity| |].
        -- intros a Ha. rewrite (file_records_image_id _ _ _ _ _ _ E1 Ha).
           now apply Nat.eqb_neq.
        -- intros a Ha. rewrite (file_records_image_id _ _ _ _ _ _ E Ha).
           now apply Nat.eqb_neq.
    + apply IH; auto. intros image_id Hin. apply Hsame. now right.
Qed.

Lemma records_for_forget (S : Shapely) (self : PRIMADataset) (out : coco)
      (ls : list (list annotation)) (idx : nat) :
  files_records S self (enumerate (_ids self)) = Ok ls ->
  annotations out = renumber 0 (List.concat ls) ->
  map (with_id 0) (records_for idx out)
  = filter (fun a => image_id a =? idx) (List.concat ls).
Proof.
  intros Hls Hann. unfold records_for. rewrite Hann.
  assert (Hz : forall a, In a (List.concat ls) -> ann_id a = 0).
  { intros a Hin. apply in_concat in Hin. destruct Hin as (l & Hl & Hin).
    apply (emitted_id S self). eapply files_records_In; eauto.
    intros i image_id. apply enumerate_In. }
  rewrite <- (renumber_forget 0 (List.concat ls) Hz) at 2.
  generalize (renumber 0 (List.concat ls)). intros l.
  induction l as [|a l IH]; simpl; [reflexivity|].
  destruct (image_id a =? idx); simpl; now rewrite IH.
Qed.

Lemma map_fst_combine {A B : Type} (a : list A) :
  forall b : list B, List.length a = List.length b -> map fst (combine a b) = a.
Proof.
  induction a as [|x a IH]; intros [|y b] H; simpl in *; try discriminate; [reflexivity|].
  f_equal. apply IH. congruence.
Qed.

Lemma sorted_app_block (i : nat) (xs ys : list nat) :
  (forall x, In x xs -> x = i) -> Forall (le i) ys -> StronglySorted le ys ->
  StronglySorted le (xs ++ ys).
Proof.
  intros Hx Hy Hs. induction xs as [|x xs IH]; simpl; [exact Hs|].
  constructor.
  - apply IH. intros y Hin. apply Hx. now right.
  - rewrite (Hx x (or_introl eq_refl)). apply Forall_app. split; [|exact Hy].
    apply Forall_forall. intros y Hin. rewrite (Hx y (or_intror Hin)). lia.
Qed.

Lemma files_records_sorted (S : Shapely) (self : PRIMADataset) (items : list (nat * string)) :
  forall ls, StronglySorted lt (map fst items) ->
    files_records S self items = Ok ls ->
    StronglySorted le (map image_id (List.concat ls)) /\
    Forall (fun i => In i (map fst items)) (map image_id (List.concat ls)).
Proof.
  induction items as [|[i id] items IH]; intros ls Hs H; simpl in H.
  - injection H as <-. simpl. split; constructor.
  - bind_inv H. bind_inv H. injection H as <-.
    simpl in Hs. inversion Hs as [|? ? Hs' Hlt]; subst.
    destruct (IH _ Hs' E0) as [IH1 IH2].
    assert (Hblock : forall x, In x (map image_id v) -> x = i).
    { intros x Hin. apply in_map_iff in Hin. destruct Hin as (a & <- & Ha).
      exact (file_records_image_id S self i id v a E Ha). }
    simpl. rewrite map_app. split.
    + apply (sorted_app_block i); auto.
      rewrite Forall_forall in IH2, Hlt. apply Forall_forall. intros x Hx.
      specialize (Hlt x (IH2 x Hx)). lia.
    + apply Forall_app. split.
      * apply Forall_forall. intros x Hx. left. symmetry. now apply Hblock.
      * eapply Forall_impl; [|exact IH2]. intros x Hx. now right.
Qed.

Lemma seq_sorted (n : nat) : forall s, StronglySorted lt (seq s n).
Proof.
  induction n as [|n IH]; intros s; simpl; constructor; [apply IH|].
  apply Forall_forall. intros x Hx. apply in_seq in Hx. lia.
Qed.

Lemma renumber_image_ids (n : nat) (l : list annotation) :
  map image_id (renumber n l) = map image_id l.
Proof. revert n. induction l as [|a l IH]; intros n; simpl; [|rewrite IH]; reflexivity. Qed.

(** In a list sorted by file and numbered from [s], the records of one
    file carry consecutive numbers, the first one being [s] plus the
    number of records of the earlier files. *)
Lemma renumber_block (idx : nat) (l : list annotation) :
  forall s, StronglySorted le (map image_id l) ->
    map ann_id (filter (fun a => image_id a =? idx) (renumber s l))
    = seq (s + List.length (filter (fun a => image_id a <? idx) (renumber s l)))
          (List.length (filter (fun a => image_id a =? idx) (renumber s l))).
Proof.
  induction l as [|a l IH]; intros s Hs; [reflexivity|].
  cbn [map] in Hs. inversion Hs as [|? ? Hs' Hle]; subst.
  cbn [renumber filter]. cbn [with_id image_id].
  destruct (Nat.lt_trichotomy (image_id a) idx) as [Hlt|[Heq|Hgt]].
  - rewrite (proj2 (Nat.ltb_lt _ _) Hlt).
    rewrite (proj2 (Nat.eqb_neq _ _)) by lia.
    rewrite (IH (S s) Hs'). cbn [List.length]. f_equal. lia.
  - rewrite (proj2 (Nat.eqb_eq _ _) Heq).
    rewrite (proj2 (Nat.ltb_ge _ _)) by lia.
    cbn [map List.length seq ann_id]. rewrite (IH (S s) Hs').
    assert (Hnone : filter (fun a0 => image_id a0 <? idx) (renumber (S s) l) = []).
    { apply filter_none. intros b Hb. apply Nat.ltb_ge.
      apply (in_map image_id) in Hb. rewrite renumber_image_ids in Hb.
      rewrite Forall_forall in Hle. specialize (Hle _ Hb). lia. }
    rewrite Hnone. cbn [List.length]. rewrite !Nat.add_0_r. reflexivity.
  - assert (Hall : forall b, In b (renumber (S s) l) -> idx < image_id b).
    { intros b Hb. apply (in_map image_id) in Hb. rewrite renumber_image_ids in Hb.
      rewrite Forall_forall in Hle. specialize (Hle _ Hb). lia. }
    rewrite (proj2 (Nat.eqb_neq _ _)) by lia.
    rewrite (proj2 (Nat.ltb_ge _ _)) by lia.
    rewrite (filter_none (fun a0 => image_id a0 =? idx) (renumber (S s) l))
      by (intros b Hb; apply Nat.eqb_neq; specialize (Hall b Hb); lia).
    reflexivity.
Qed.

Lemma records_numbered (S : Shapely) (self : PRIMADataset) (out : coco) (idx : nat) :
  convert_to_COCO S self = Ok out ->
  map ann_id (records_for idx out)
  = seq (List.length (records_before idx out)) (List.length (records_for idx out)).
Proof.
  intros H. apply convert_to_COCO_spec in H. destruct H as (ls & Hls & Hann & _).
  unfold records_for, records_before. rewrite Hann.
  rewrite (renumber_block idx (List.concat ls) 0); [reflexivity|].
  apply (files_records_sorted S self (enumerate (_ids self)) ls); [|exact Hls].
  unfold enumerate. rewrite map_fst_combine by apply length_seq. apply seq_sorted.
Qed.

(** C4, as the code has it.  Two runs on disks that differ only in the
    content of one annotation file emit the same image records, and for
    every index whose annotation is read from another file the same
    annotation records up to their numbers.  In each run the numbers of
    the records of an index are consecutive and start at the number of
    records of the earlier indices. *)
Theorem C4_other_files_unchanged (S : Shapely) (f : string) (d1 d2 : Disk) (out1 out2 : coco) :
  differ_only_in f d1 d2 ->
  convert_to_COCO S (__init__ d1) = Ok out1 ->
  convert_to_COCO S (__init__ d2) = Ok out2 ->
  images out1 = images out2 /\
  (forall idx, annotation_file (__init__ d1) idx <> Some f ->
     map (with_id 0) (records_for idx out1) = map (with_id 0) (records_for idx out2)) /\
  (forall idx,
     map ann_id (records_for idx out1)
     = seq (List.length (records_before idx out1)) (List.length (records_for idx out1)) /\
     map ann_id (records_for idx out2)
     = seq (List.length (records_before idx out2)) (List.length (records_for idx out2))).
Proof.
  intros Hd H1 H2.
  pose proof (fun idx => records_numbered S _ out1 idx H1) as Hn1.
  pose proof (fun idx => records_numbered S _ out2 idx H2) as Hn2.
  apply convert_to_COCO_spec in H1. destruct H1 as (ls1 & Hls1 & Hann1 & Himg1 & _).
  apply convert_to_COCO_spec in H2. destruct H2 as (ls2 & Hls2 & Hann2 & Himg2 & _).
  pose proof (differ_only_in_ids f d1 d2 Hd) as Hids. split; [|split].
  - rewrite Himg1, Himg2, <- Hids. apply flat_map_ext. intros [i id].
    unfold file_images. destruct Hd as (Himg & _). cbn [disk __init__ fst snd].
    now rewrite Himg.
  - intros idx Hf.
    rewrite (records_for_forget S _ _ _ idx Hls1 Hann1).
    rewrite (records_for_forget S _ _ _ idx Hls2 Hann2).
    rewrite <- Hids in Hls2.
    apply (files_records_filter S _ _ idx _ _ _ Hls1 Hls2).
    intros image_id _. now apply (file_records_same S f).
  - intros idx. split; [apply Hn1 | apply Hn2].
Qed.

Example sample_run' : convert_to_COCO Rings (__init__ sample_disk') = Ok sample_out'.
Proof. vm_compute. reflexivity. Qed.

Example sample_disks_differ : differ_only_in "pc-a.xml" sample_disk sample_disk'.
Proof.
  split; [reflexivity|]. split; [reflexivity|].
  intros n Hn. simpl. destruct (String.eqb_spec n "pc-a.xml"); [contradiction | reflexivity].
Qed.

Lemma C4_other_files_unchanged_witness :
  images sample_out = images sample_out' /\
  (forall idx, annotation_file (__init__ sample_disk) idx <> Some "pc-a.xml" ->
     map (with_id 0) (records_for idx sample_out)
     = map (with_id 0) (records_for idx sample_out')) /\
  (forall idx,
     map ann_id (records_for idx sample_out)
     = seq (List.length (records_before idx sample_out))
           (List.length (records_for idx sample_out)) /\
     map ann_id (records_for idx sample_out')
     = seq (List.length (records_before idx sample_out'))
           (List.length (records_for idx sample_out'))).
Proof.
  exact (C4_other_files_unchanged Rings "pc-a.xml" sample_disk sample_disk'
           sample_out sample_out' sample_disks_differ sample_run sample_run').
Defined.

Example alias_disks_differ : differ_only_in "pc-a.xml" alias_disk alias_disk'.
Proof.
  split; [reflexivity|]. split; [reflexivity|].
  intros n Hn. simpl. destruct (String.eqb_spec n "pc-a.xml"); [contradiction | reflexivity].
Qed.

(** The claim as the specification words it fails in two ways.  Emptying
    [pc-a.xml] leaves [b.xml] as it was, and the records of [b.xml] are
    numbered 4 and 5 in one run, 0 and 1 in the other.  And where [a.xml]
    stands beside [pc-a.xml], both make the id [a] and both indices read
    [pc-a.xml]: emptying [pc-a.xml] takes away the records emitted at the
    index of [a.xml], whose content is the same in both runs. *)
Lemma C4_statelessness_counterexample :
  (differ_only_in "pc-a.xml" sample_disk sample_disk' /\
   convert_to_COCO Rings (__init__ sample_disk) = Ok sample_out /\
   convert_to_COCO Rings (__init__ sample_disk') = Ok sample_out' /\
   annotation_file (__init__ sample_disk) 1 = Some "b.xml" /\
   map ann_id (records_for 1 sample_out) = [4; 5] /\
   map ann_id (records_for 1 sample_out') = [0; 1] /\
   records_for 1 sample_out <> records_for 1 sample_out') /\
  (differ_only_in "pc-a.xml" alias_disk alias_disk' /\
   convert_to_COCO Rings (__init__ alias_disk) = Ok alias_out /\
   convert_to_COCO Rings (__init__ alias_disk') = Ok alias_out' /\
   nth_error (find_all_annotation_files alias_disk) 1 = Some "a.xml" /\
   Dict.get String.eqb "a.xml" (XML alias_disk) = Dict.get String.eqb "a.xml" (XML alias_disk') /\
   annotation_file (__init__ alias_disk) 1 = Some "pc-a.xml" /\
   List.length (records_for 1 alias_out) = 4 /\
   List.length (records_for 1 alias_out') = 0).
Proof.
  split.
  - split; [exact sample_disks_differ|].
    split; [exact sample_run|]. split; [exact sample_run'|].
    split; [reflexivity|]. split; [reflexivity|]. split; [reflexivity|].
    intros H. apply (f_equal (map ann_id)) in H. vm_compute in H. discriminate.
  - split; [exact alias_disks_differ|].
    split; [vm_compute; reflexivity|]. split; [vm_compute; reflexivity|].
    repeat split.
Qed.

Lemma C5_group_cells_by_row_and_column_witness :
  exists rows columns,
    group_cells_by_row_and_column (TableCells table_2x2) = Ok (rows, columns) /\
    groups_cells_by "row" (TableCells table_2x2) rows /\
    groups_cells_by "col" (TableCells table_2x2) columns.
Proof.
  apply C5_group_cells_by_row_and_column.
  intros c Hin. simpl in Hin.
  destruct Hin as [<-|[<-|[<-|[<-|[]]]]]; eexists; eexists; split; reflexivity.
Defined.

(** Leading zeros and blanks do not tell keys apart: the key is the integer. *)
Example keys_are_integers :
  forall rows columns,
    group_cells_by_row_and_column
      [cell "1" "0" (square 0 0); cell " 01" "1" (square 2 0)] = Ok (rows, columns) ->
    map fst rows = [1%Z] /\ map fst columns = [0%Z; 1%Z].
Proof. intros rows columns H. vm_compute in H. injection H as <- <-. split; reflexivity. Qed.

End ConverterFacts.

(** ** The downloader *)

Module StrFacts.
Import DownloaderMoreSpec.
Unset Implicit Arguments.
Local Open Scope string_scope.

Lemma append_assoc (a b c : string) : (a ++ b) ++ c = a ++ (b ++ c).
Proof. induction a as [|x a IH]; simpl; [|rewrite IH]; reflexivity. Qed.

Lemma append_nil_r (a : string) : a ++ "" = a.
Proof. induction a as [|x a IH]; simpl; [|rewrite IH]; reflexivity. Qed.

Lemma rev_acc_append (s : string) :
  forall acc, Str.rev_acc s acc = Str.rev_acc s "" ++ acc.
Proof.
  induction s as [|c s IH]; intros acc; simpl; [reflexivity|].
  rewrite (IH (String c acc)), (IH (String c "")), append_assoc. reflexivity.
Qed.

Lemma rev_cons (c : ascii) (s : string) : Str.rev (String c s) = Str.rev s ++ String c "".
Proof. unfold Str.rev. simpl. apply rev_acc_append. Qed.

Lemma contains_char_append (c : ascii) (a b : string) :
  Str.contains_char c (a ++ b) = Str.contains_char c a || Str.contains_char c b.
Proof.
  induction a as [|x a IH]; cbn [append Str.contains_char]; [reflexivity|].
  rewrite IH. apply orb_assoc.
Qed.

Lemma contains_char_rev (c : ascii) (s : string) :
  Str.contains_char c (Str.rev s) = Str.contains_char c s.
Proof.
  induction s as [|x s IH]; [reflexivity|].
  rewrite rev_cons, contains_char_append, IH. cbn [Str.contains_char].
  rewrite orb_false_r. apply orb_comm.
Qed.

Lemma prefix_cons_neq (a b : ascii) (s t : string) :
  Ascii.eqb a b = false -> String.prefix (String a s) (String b t) = false.
Proof.
  intros H. simpl. destruct (ascii_dec a b) as [->|_]; [|reflexivity].
  rewrite Ascii.eqb_refl in H. discriminate.
Qed.

Lemma prefix_cons_eq (a : ascii) (s t : string) :
  String.prefix (String a s) (String a t) = String.prefix s t.
Proof.
  simpl. destruct (ascii_dec a a) as [_|H]; [|contradiction].
  destruct s, t; reflexivity.
Qed.

Lemma prefix_append (s t : string) : String.prefix s (s ++ t) = true.
Proof.
  induction s as [|c s IH]; [destruct t; reflexivity|].
  cbn [append]. now rewrite prefix_cons_eq.
Qed.

Lemma split_from_nonempty (sep : string) (s : string) :
  forall skip cur, Str.split_from sep skip cur s <> [].
Proof.
  induction s as [|c s IH]; intros skip cur; cbn [Str.split_from]; [discriminate|].
  destruct skip; [|apply IH].
  destruct (String.prefix sep (String c s)); [discriminate | apply IH].
Qed.

(** The piece being read is the start of the first piece. *)
Lemma first_piece_starts (sep : string) (s : string) :
  forall cur, exists x, first_piece (Str.split_from sep 0 cur s) = Str.rev cur ++ x.
Proof.
  induction s as [|c s IH]; intros cur; cbn [Str.split_from].
  - exists "". simpl. now rewrite append_nil_r.
  - destruct (String.prefix sep (String c s)).
    + exists "". simpl. now rewrite append_nil_r.
    + destruct (IH (String c cur)) as (x & Hx). exists (String c x).
      rewrite Hx, rev_cons, append_assoc. reflexivity.
Qed.

(** A digit is neither an underscore nor a dot. *)
Lemma digit_not_underscore (c : ascii) : Str.is_digit c = true -> Ascii.eqb "_" c = false.
Proof.
  intros H. destruct (Ascii.eqb_spec "_" c) as [<-|]; [|reflexivity].
  vm_compute in H. discriminate.
Qed.

Lemma digit_not_dot (c : ascii) : Str.is_digit c = true -> Ascii.eqb "." c = false.
Proof.
  intros H. destruct (Ascii.eqb_spec "." c) as [<-|]; [|reflexivity].
  vm_compute in H. discriminate.
Qed.

Lemma digits_no_underscore (s : string) :
  Str.all_digits s = true -> Str.contains_char "_" s = false.
Proof.
  induction s as [|c s IH]; cbn [Str.all_digits Str.contains_char]; [reflexivity|].
  intros H. apply andb_true_iff in H. destruct H as [Hc Hs].
  now rewrite (digit_not_underscore c Hc), IH.
Qed.

(** Splitting at underscores: the text before the first underscore is the
    first piece. *)
Lemma split_underscore_first (inv x : string) :
  Str.contains_char "_" inv = false ->
  forall cur, first_piece (Str.split_from "_" 0 cur (inv ++ String "_" x)) = Str.rev cur ++ inv.
Proof.
  induction inv as [|c inv IH]; intros H cur.
  - cbn [append Str.split_from]. rewrite prefix_cons_eq.
    destruct x; simpl; now rewrite append_nil_r.
  - cbn [Str.contains_char] in H. apply orb_false_iff in H. destruct H as [Hc Hinv].
    cbn [append Str.split_from]. rewrite (prefix_cons_neq _ _ _ _ Hc).
    rewrite (IH Hinv), rev_cons, append_assoc. reflexivity.
Qed.

(** The first piece of a split at underscores holds no underscore. *)
Lemma split_underscore_clean (s : string) :
  forall cur, Str.contains_char "_" cur = false ->
    Str.contains_char "_" (first_piece (Str.split_from "_" 0 cur s)) = false.
Proof.
  induction s as [|c s IH]; intros cur H; cbn [Str.split_from].
  - simpl. now rewrite contains_char_rev.
  - destruct (Ascii.eqb "_" c) eqn:E.
    + apply Ascii.eqb_eq in E. subst c. rewrite prefix_cons_eq.
      assert (P : String.prefix "" s = true) by (destruct s; reflexivity).
      rewrite P. simpl. now rewrite contains_char_rev.
    + rewrite (prefix_cons_neq _ _ _ _ E). apply IH.
      cbn [Str.contains_char]. now rewrite E.
Qed.

(** Reading over text without the character 1 finds no archive code. *)
Lemma split_code_skip (pre t : string) :
  Str.contains_char "1" pre = false ->
  forall cur, Str.split_from archive_code 0 cur (pre ++ t)
              = Str.split_from archive_code 0 (Str.rev_acc pre cur) t.
Proof.
  induction pre as [|c pre IH]; intros H cur; [reflexivity|].
  cbn [Str.contains_char] in H. apply orb_false_iff in H. destruct H as [Hc Hpre].
  cbn [append Str.split_from]. unfold archive_code at 1.
  rewrite (prefix_cons_neq _ _ _ _ Hc). fold archive_code.
  rewrite (IH Hpre). reflexivity.
Qed.

(** Reading over digits and the underscore after them finds no archive
    code either. *)
Lemma split_code_digits (inv rest : string) :
  Str.all_digits inv = true ->
  forall cur, exists x,
    first_piece (Str.split_from archive_code 0 cur (inv ++ String "_" rest))
    = Str.rev cur ++ inv ++ String "_" x.
Proof.
  induction inv as [|d inv IH]; intros H cur.
  - cbn [append Str.split_from]. unfold archive_code at 1.
    rewrite prefix_cons_neq by reflexivity. fold archive_code.
    destruct (first_piece_starts archive_code rest (String "_" cur)) as (x & Hx).
    exists x. rewrite Hx, rev_cons, append_assoc. reflexivity.
  - cbn [Str.all_digits] in H. apply andb_true_iff in H. destruct H as [Hd Hinv].
    assert (P : String.prefix archive_code (String d (inv ++ String "_" rest)) = false).
    { unfold archive_code. destruct (Ascii.eqb "1" d) eqn:E.
      - apply Ascii.eqb_eq in E. subst d. rewrite prefix_cons_eq.
        destruct inv as [|d' inv]; cbn [append].
        + now apply prefix_cons_neq.
        + cbn [Str.all_digits] in Hinv. apply andb_true_iff in Hinv.
          destruct Hinv as [Hd' _].
          apply prefix_cons_neq. now apply digit_not_dot.
      - now apply prefix_cons_neq. }
    cbn [append Str.split_from]. rewrite P.
    destruct (IH Hinv (String d cur)) as (x & Hx). exists x.
    rewrite Hx, rev_cons, append_assoc. reflexivity.
Qed.

(** *** Suffixes *)

Lemma rev_append (a b : string) : Str.rev (a ++ b) = Str.rev b ++ Str.rev a.
Proof.
  induction a as [|c a IH].
  - simpl. now rewrite append_nil_r.
  - cbn [append]. now rewrite !rev_cons, IH, append_assoc.
Qed.

Lemma rev_involutive (s : string) : Str.rev (Str.rev s) = s.
Proof.
  induction s as [|c s IH]; [reflexivity|].
  rewrite rev_cons, rev_append, IH. reflexivity.
Qed.

Lemma prefix_inv (p : string) : forall s, String.prefix p s = true -> exists b, s = p ++ b.
Proof.
  induction p as [|c p IH]; intros s H.
  - exists s. reflexivity.
  - destruct s as [|c' s]; [discriminate|].
    simpl in H. destruct (ascii_dec c c') as [<-|]; [|discriminate].
    destruct (IH s H) as [b ->]. exists b. reflexivity.
Qed.

Lemma endswith_append (a x : string) : Str.endswith x (a ++ x) = true.
Proof. unfold Str.endswith. rewrite rev_append. apply prefix_append. Qed.

Lemma endswith_inv (x s : string) : Str.endswith x s = true -> exists a, s = a ++ x.
Proof.
  unfold Str.endswith. intros H. apply prefix_inv in H. destruct H as [b Hb].
  exists (Str.rev b). rewrite <- (rev_involutive s), Hb, rev_append.
  now rewrite rev_involutive.
Qed.

(** A name [dddd_*.xml] without its first five characters still ends in
    [.xml]. *)
Lemma drop_prefix_xml (name : string) :
  Str.endswith ".xml" name = true ->
  Str.isdigit (Str.take 4 name) = true ->
  String.get 4 name = Some "_"%char ->
  Str.endswith ".xml" (Str.drop 5 name) = true.
Proof.
  intros Hx Hd Hu. apply endswith_inv in Hx. destruct Hx as [a ->].
  destruct a as [|c0 [|c1 [|c2 [|c3 [|c4 a]]]]].
  - vm_compute in Hd. discriminate.
  - cbn in Hd. rewrite !andb_false_r in Hd. discriminate.
  - cbn in Hd. rewrite !andb_false_r in Hd. discriminate.
  - cbn in Hd. rewrite !andb_false_r in Hd. discriminate.
  - cbn in Hu. discriminate.
  - cbn [append Str.drop]. apply endswith_append.
Qed.

End StrFacts.

Module DownloaderFacts.
Import Downloader DownloaderSpec.
Unset Implicit Arguments.
Local Open Scope string_scope.
Local Open Scope nat_scope.
Local Open Scope list_scope.

Lemma key_eqb_eq (a b : option string) : key_eqb a b = true <-> a = b.
Proof.
  destruct a as [x|], b as [y|]; simpl; try (split; [discriminate | discriminate]).
  - rewrite String.eqb_eq. split; [now intros -> | now intros [= ->]].
  - tauto.
Qed.

Lemma path_eqb_eq (p q : path) : path_eqb p q = true <-> p = q.
Proof.
  destruct p as [d n], q as [d' n']. unfold path_eqb. simpl.
  rewrite andb_true_iff, !String.eqb_eq. split; [now intros [-> ->] | now intros [= -> ->]].
Qed.

(** *** The finding-aid table *)

Lemma get_app_last (k k0 : option string) (v0 : option string) (l : table) :
  Dict.get key_eqb k (l ++ [(k0, v0)]) =
  match Dict.get key_eqb k l with
  | Some v => Some v
  | None => if key_eqb k k0 then Some v0 else None
  end.
Proof.
  induction l as [|[k1 v1] l IH]; simpl; [reflexivity|].
  destruct (key_eqb k k1); [reflexivity | exact IH].
Qed.

Lemma collect_unitid_mets_get (dids : list Element) :
  forall out k,
    Dict.get key_eqb k (collect_unitid_mets dids out) =
    match Dict.get key_eqb k
            (rev (flat_map (fun did => match did_entry did with
                                       | Some e => [e] | None => [] end) dids)) with
    | Some v => Some v
    | None => Dict.get key_eqb k out
    end.
Proof.
  induction dids as [|did dids IH]; intros out k; [reflexivity|].
  cbn [collect_unitid_mets flat_map].
  destruct (find_child "unitid" did) as [uid|] eqn:Eu;
    [destruct (find_child "dao" did) as [mets|] eqn:Em|].
  - assert (He : did_entry did = Some (text_of uid, attrib_get "href" mets))
      by (unfold did_entry; now rewrite Eu, Em).
    rewrite He, IH, rev_app_distr. cbn [rev app]. rewrite get_app_last.
    destruct (Dict.get key_eqb k (rev _)); [reflexivity|].
    destruct (key_eqb k (text_of uid)) eqn:E.
    + apply key_eqb_eq in E. subst. apply (DictFacts.get_set_same key_eqb key_eqb_eq).
    + apply (DictFacts.get_set_other key_eqb key_eqb_eq).
      intros Hk. rewrite Hk, (DictFacts.eqb_refl key_eqb key_eqb_eq) in E. discriminate.
  - assert (He : did_entry did = None) by (unfold did_entry; now rewrite Eu, Em).
    rewrite He. apply IH.
  - assert (He : did_entry did = None) by (unfold did_entry; now rewrite Eu).
    rewrite He. apply IH.
Qed.

Lemma collect_unitid_mets_NoDup (dids : list Element) :
  forall out, NoDup (Dict.keys out) -> NoDup (Dict.keys (collect_unitid_mets dids out)).
Proof.
  induction dids as [|did dids IH]; intros out H; simpl; [exact H|].
  destruct (find_child "unitid" did); [|now apply IH].
  destruct (find_child "dao" did); [|now apply IH].
  apply IH. now apply (DictFacts.NoDup_keys_set key_eqb key_eqb_eq).
Qed.

(** C6, as the code has it.  The table of [parse_unitid_mets] has one entry
    for every text of a [unitid] of a [did] element (below the root) with a
    [unitid] child and a [dao] child; it maps the text to the [href] of the
    [dao] of the last such element with that text, and holds nothing else:
    looking a key up in the table is looking it up among the entries of
    the [did] elements from the last to the first. *)
Theorem C6_unitid_table (r : Element) :
  (forall k, Dict.get key_eqb k (unitid_mets_of r)
             = Dict.get key_eqb k (rev (did_entries r))) /\
  NoDup (Dict.keys (unitid_mets_of r)) /\
  (forall k v, In (k, v) (unitid_mets_of r) -> In (k, v) (did_entries r)).
Proof.
  assert (Hget : forall k, Dict.get key_eqb k (unitid_mets_of r)
                           = Dict.get key_eqb k (rev (did_entries r))).
  { intros k. unfold unitid_mets_of, did_entries. rewrite collect_unitid_mets_get.
    now destruct (Dict.get key_eqb k (rev _)). }
  assert (Hnd : NoDup (Dict.keys (unitid_mets_of r))).
  { apply collect_unitid_mets_NoDup. constructor. }
  split; [exact Hget|]. split; [exact Hnd|].
  intros k v Hin. apply (DictFacts.In_get key_eqb key_eqb_eq) in Hin; [|exact Hnd].
  rewrite Hget in Hin. apply (DictFacts.get_In key_eqb key_eqb_eq) in Hin.
  now apply in_rev in Hin.
Qed.

(** The claim as the specification words it fails on [ead_twice]: the first
    [did] element has both children, and the table does not map its
    [unitid] to its [href]. *)
Lemma C6_duplicate_unitid_counterexample :
  exists did uid dao,
    In did (findall_below "did" ead_twice) /\
    find_child "unitid" did = Some uid /\ find_child "dao" did = Some dao /\
    text_of uid = Some "1234" /\ attrib_get "href" dao = Some "http://mets/a" /\
    Dict.get key_eqb (text_of uid) (unitid_mets_of ead_twice) = Some (Some "http://mets/b").
Proof.
  do 3 eexists. split; [left; reflexivity|]. repeat split.
Qed.

(** *** The sample run of the downloader *)

Example sample_main : main sample_argv sample_world = Ok sample_world_end.
Proof. vm_compute. reflexivity. Qed.

Example sample_main_effects :
  map fst (entries sample_world_end)
  = [ ("pages", (label_5 ++ ".xml")%string); (".", XML_FILENAME);
      ("out", (label_5 ++ ".jpg")%string) ] /\
  requested sample_world_end
  = [ XML_DOWNLOAD_URL; "http://mets/1234"; "http://scans/5.jpg" ].
Proof. vm_compute. split; reflexivity. Qed.

(** *** Cleaning the target directory *)

Lemma unlink_entries (p : path) (w w' : World) :
  unlink p w = Ok w' -> entries w' = remove_entry p (entries w).
Proof.
  unfold unlink. destruct (lookup p w) as [[c|]|]; try discriminate.
  now intros [= <-].
Qed.

Lemma unlink_unlistable (p : path) (w w' : World) :
  unlink p w = Ok w' -> unlistable w' = unlistable w.
Proof.
  unfold unlink. destruct (lookup p w) as [[c|]|]; try discriminate.
  now intros [= <-].
Qed.

Lemma unlink_all_keys (l : list path) :
  forall w w' q, unlink_all l w = Ok w' ->
    In q (map fst (entries w')) -> In q (map fst (entries w)) /\ ~ In q l.
Proof.
  induction l as [|p l IH]; intros w w' q H Hq; simpl in H.
  - injection H as <-. auto.
  - bind_inv H. destruct (IH _ _ _ H Hq) as [Hq1 Hnot].
    rewrite (unlink_entries _ _ _ E) in Hq1. unfold remove_entry in Hq1.
    apply in_map_iff in Hq1. destruct Hq1 as ([q' e] & <- & Hin).
    apply filter_In in Hin. destruct Hin as [Hin Hne]. simpl in *. split.
    + now apply (in_map fst) in Hin.
    + intros [->|Hl]; [|contradiction].
      rewrite (proj2 (path_eqb_eq q' q') eq_refl) in Hne. discriminate.
Qed.

Lemma unlink_all_unlistable (l : list path) :
  forall w w', unlink_all l w = Ok w' -> unlistable w' = unlistable w.
Proof.
  induction l as [|p l IH]; intros w w' H; simpl in H.
  - now injection H as <-.
  - bind_inv H. rewrite (IH _ _ H). exact (unlink_unlistable _ _ _ E).
Qed.

Lemma unlink_all_glob (d : string) (w w' : World) :
  unlink_all (glob_xml d w) w = Ok w' -> glob_xml d w' = [].
Proof.
  intros H. unfold glob_xml at 1.
  assert (Hc : can_list d w' = can_list d w).
  { unfold can_list. now rewrite (unlink_all_unlistable _ _ _ H). }
  rewrite Hc. destruct (can_list d w) eqn:Ec; [|reflexivity].
  apply ConverterFacts.filter_none. intros q Hq.
  destruct (unlink_all_keys _ _ _ q H Hq) as [Hq1 Hnot].
  destruct (String.eqb (fst q) d && Str.endswith ".xml" (snd q)) eqn:E; [|reflexivity].
  exfalso. apply Hnot. unfold glob_xml. rewrite Ec. apply filter_In. now split.
Qed.

Lemma glob_empty_lookup (d name : string) (w : World) :
  can_list d w = true ->
  glob_xml d w = [] -> Str.endswith ".xml" name = true -> lookup (d, name) w = None.
Proof.
  intros Hc Hg Hx. unfold lookup.
  apply (DictFacts.get_None_keys path_eqb path_eqb_eq). intros Hin.
  assert (Hin' : In (d, name) (glob_xml d w)).
  { unfold glob_xml. rewrite Hc. apply filter_In. split; [exact Hin|].
    simpl. now rewrite String.eqb_refl, Hx. }
  rewrite Hg in Hin'. destruct Hin'.
Qed.

(** C10, as the code has it.  When [main] completes normally and the
    target directory may be listed, the target directory holds no entry
    whose name matches [*.xml]: the manifests downloaded by the run and the
    [.xml] files that were there before are deleted alike. *)
Theorem C10_target_has_no_xml (argv : list string) (w w' : World) :
  main argv w = Ok w' ->
  exists prog source_dir target_dir,
    argv = [prog; source_dir; target_dir] /\
    (can_list target_dir w' = true ->
     forall name, Str.endswith ".xml" name = true -> lookup (target_dir, name) w' = None).
Proof.
  unfold main. intros H.
  destruct argv as [|prog [|source_dir [|target_dir [|x argv]]]]; try discriminate.
  exists prog, source_dir, target_dir. split; [reflexivity|].
  destruct (negb (is_dir source_dir w)); [discriminate|].
  bind_inv H. destruct v as [renamed_files w1].
  bind_inv H. bind_inv H. bind_inv H. destruct v1 as [pm w3].
  intros Hc name Hx. apply glob_empty_lookup; [exact Hc | | exact Hx].
  exact (unlink_all_glob _ _ _ H).
Qed.

Lemma C10_target_has_no_xml_witness :
  exists prog source_dir target_dir,
    sample_argv = [prog; source_dir; target_dir] /\
    (can_list target_dir sample_world_end = true ->
     forall name, Str.endswith ".xml" name = true ->
                  lookup (target_dir, name) sample_world_end = None).
Proof. exact (C10_target_has_no_xml sample_argv sample_world sample_world_end sample_main). Defined.

(** The claim as the specification words it fails on a target directory
    that may be written to but not listed: [glob] yields nothing there,
    [main] completes normally, and the manifest it downloaded and the
    [.xml] file that was there before are still in the target directory. *)
Lemma C10_unlistable_target_counterexample :
  exists w',
    main sample_argv sealed_world = Ok w' /\
    lookup ("out", "1234.xml") w' = Some (Regular (XmlDocument mets_1234)) /\
    lookup ("out", "notes.xml") w' = Some (Regular (Bytes "notes")) /\
    Str.endswith ".xml" "1234.xml" = true /\ Str.endswith ".xml" "notes.xml" = true.
Proof.
  eexists. split; [vm_compute; reflexivity|]. repeat split.
Qed.

(** *** Fetching the page image *)

Lemma xml_jpg_distinct (a : string) :
  forall b, (a ++ ".xml")%string <> (b ++ ".jpg")%string.
Proof.
  induction a as [|c a IH]; intros b H.
  - destruct b as [|c1 [|c2 [|c3 [|c4 [|c5 b]]]]]; simpl in H; discriminate.
  - destruct b as [|c' b]; simpl in H.
    + destruct a as [|c1 [|c2 [|c3 [|c4 a]]]]; simpl in H; discriminate.
    + injection H as _ H. exact (IH b H).
Qed.

Lemma lookup_write_file (p q : path) (c : content) (w w' : World) :
  write_file p c w = Ok w' ->
  lookup q w' = (if path_eqb p q then Some (Regular c) else lookup q w) /\
  requested w' = requested w.
Proof.
  unfold write_file, lookup. intros H.
  assert (Hw : w' = with_entries w (Dict.set path_eqb p (Regular c) (entries w))).
  { destruct (Dict.get path_eqb p (entries w)) as [[c0|]|]; congruence. }
  subst w'. simpl. split; [|reflexivity].
  destruct (path_eqb p q) eqn:E.
  - apply path_eqb_eq in E. subst q. apply (DictFacts.get_set_same path_eqb path_eqb_eq).
  - apply (DictFacts.get_set_other path_eqb path_eqb_eq).
    intros ->. rewrite (proj2 (path_eqb_eq q q) eq_refl) in E. discriminate.
Qed.

Lemma write_file_env (p : path) (c : content) (w w' : World) :
  write_file p c w = Ok w' -> http w' = http w /\ etree_find w' = etree_find w.
Proof.
  unfold write_file. intros H.
  destruct (lookup p w) as [[c0|]|]; try discriminate; injection H as <-; split; reflexivity.
Qed.

Lemma get_content_spec (url : string) (w w2 : World) (r : result content) :
  get_content url w = (r, w2) ->
  entries w2 = entries w /\ requested w2 = requested w ++ [url].
Proof.
  unfold get_content. intros H.
  destruct (http w url) as [[|] body| |]; injection H as <- <-; split; reflexivity.
Qed.

Lemma get_content_env (url : string) (w w2 : World) (r : result content) :
  get_content url w = (r, w2) -> http w2 = http w /\ etree_find w2 = etree_find w.
Proof.
  unfold get_content. intros H.
  destruct (http w url) as [[|] body| |]; injection H as <- <-; split; reflexivity.
Qed.

Lemma get_content_answer (url : string) (w w2 : World) (r : result content) :
  get_content url w = (r, w2) ->
  match r with
  | Ok body => http w url = Response true body
  | Raise ValueError => http w url = InvalidURL
  | Raise _ => True
  end.
Proof.
  unfold get_content. intros H.
  destruct (http w url) as [[|] body| |]; injection H as <- <-; auto.
Qed.

Lemma find_image_url_lookup (p : path) (label : string) (w1 w2 : World) :
  lookup p w1 = lookup p w2 -> etree_find w1 = etree_find w2 ->
  find_image_url p label w1 = find_image_url p label w2.
Proof. intros H He. unfold find_image_url, parse. now rewrite H, He. Qed.

Lemma download_mets_spec (url : string) (p : path) (w w1 : World) :
  download_mets url p w = Ok w1 ->
  requested w1 = requested w ++ [url] /\
  forall q, q <> p -> lookup q w1 = lookup q w.
Proof.
  unfold download_mets. intros H.
  destruct (get_content url w) as [r w2] eqn:Eg.
  apply get_content_spec in Eg. destruct Eg as [He Hr].
  bind_inv H. split.
  - destruct (lookup_write_file p p v w2 w1 H) as [_ ->]. exact Hr.
  - intros q Hq. destruct (lookup_write_file p q v w2 w1 H) as [-> _].
    destruct (path_eqb p q) eqn:Epq.
    + apply path_eqb_eq in Epq. congruence.
    + unfold lookup. now rewrite He.
Qed.

Lemma download_mets_env (url : string) (p : path) (w w1 : World) :
  download_mets url p w = Ok w1 -> http w1 = http w /\ etree_find w1 = etree_find w.
Proof.
  unfold download_mets. intros H.
  destruct (get_content url w) as [r w2] eqn:Eg.
  apply get_content_env in Eg. destruct Eg as [Hh Hf].
  bind_inv H. apply write_file_env in H. destruct H as [Hh' Hf']. split; congruence.
Qed.

Lemma log_not_longer (l m : list string) (x : string) : l ++ m <> l ++ m ++ [x].
Proof.
  intros H. apply (f_equal (@List.length string)) in H.
  rewrite !length_app in H. simpl in H. lia.
Qed.

Lemma log_one_more (l m : list string) (x y : string) :
  (l ++ m) ++ [x] = l ++ m ++ [y] <-> y = x.
Proof.
  rewrite <- app_assoc. split.
  - intros H. apply app_inv_head in H. apply app_inv_head in H. congruence.
  - now intros ->.
Qed.

(** **** What the call requests and saves *)

Lemma process_file_requests (xml_file : path) (unitid_mets : table) (target_dir : string)
      (processed_mets processed_mets' : list string) (w w' : World) :
  process_file xml_file unitid_mets target_dir processed_mets w = Ok (processed_mets', w') ->
  forall url,
    (image_fetched xml_file unitid_mets processed_mets w w' url <->
     (label_url xml_file unitid_mets target_dir w' = Some url /\
      exists_ (image_path_of xml_file target_dir) w = false)) /\
    (image_fetched xml_file unitid_mets processed_mets w w' url ->
     image_saved xml_file target_dir w w' url \/
     (http w url = InvalidURL /\ lookup (image_path_of xml_file target_dir) w' = None)).
Proof.
  unfold process_file, image_fetched, image_saved, label_url, mets_request, mets_url_of,
    image_path_of.
  intros H url. bind_inv H. rename v into inv_no. rewrite E.
  destruct (Dict.get key_eqb (Some inv_no) unitid_mets) as [[[|c s]|]|] eqn:Eg;
    try (injection H as <- <-; rewrite app_nil_l;
         assert (F0 : requested w <> requested w ++ [url])
           by (intros F; apply (log_not_longer (requested w) [] url); now rewrite app_nil_r);
         split; [split; [intros F; contradiction | intros [F _]; discriminate]
                | intros F; contradiction]).
  set (mets_url := String c s) in *.
  set (mets_file := (target_dir, (inv_no ++ ".xml")%string)) in *.
  set (image_path := (target_dir, (stem (snd xml_file) ++ ".jpg")%string)) in *.
  assert (Hpaths : image_path <> mets_file).
  { unfold image_path, mets_file. intros [= Hn]. symmetry in Hn.
    exact (xml_jpg_distinct _ _ Hn). }
  bind_inv H. destruct v as [pm1 w1].
  assert (Hstep : requested w1
                  = requested w ++ (if existsb (String.eqb inv_no) processed_mets
                                    then [] else [mets_url]) /\
                  (forall q, q <> mets_file -> lookup q w1 = lookup q w) /\
                  http w1 = http w).
  { destruct (existsb (String.eqb inv_no) processed_mets); simpl in E0.
    - injection E0 as <- <-. now rewrite app_nil_r.
    - bind_inv E0. injection E0 as <- <-.
      destruct (download_mets_spec _ _ _ _ E1) as [H1 H2].
      destruct (download_mets_env _ _ _ _ E1) as [H3 _]. auto. }
  clear E0. destruct Hstep as (Hlog & Hfs & Hhttp).
  assert (Hex : exists_ image_path w1 = exists_ image_path w).
  { unfold exists_. now rewrite Hfs. }
  set (mr := if existsb (String.eqb inv_no) processed_mets then [] else [mets_url]) in *.
  assert (Hnone : ~ (requested w1 = requested w ++ mr ++ [url])).
  { intros F. rewrite Hlog in F. exact (log_not_longer _ _ _ F). }
  cbv zeta in H.
  destruct (find_image_url mets_file (stem (snd xml_file)) w1) as [image_url|e] eqn:Efind.
  2:{ destruct e; try discriminate. injection H as <- <-. rewrite Efind.
      split; [split; [intros F; contradiction | intros [F _]; discriminate]
             | intros F; contradiction]. }
  destruct image_url as [[|c' s']|];
    try (injection H as <- <-; rewrite Efind;
         split; [split; [intros F; contradiction | intros [F _]; discriminate]
                | intros F; contradiction]).
  destruct (exists_ image_path w1) eqn:Ex.
  { injection H as <- <-. split.
    - split; [intros F; contradiction|]. intros [_ F]. rewrite <- Hex in F. discriminate.
    - intros F; contradiction. }
  destruct (get_content (String c' s') w1) as [r w2] eqn:Eget.
  pose proof (get_content_answer _ _ _ _ Eget) as Hans.
  destruct (get_content_env _ _ _ _ Eget) as [_ Hf2].
  apply get_content_spec in Eget. destruct Eget as [He2 Hr2].
  assert (Hend : forall w3, requested w3 = requested w2 ->
            lookup mets_file w3 = lookup mets_file w1 ->
            etree_find w3 = etree_find w1 ->
            (requested w3 = requested w ++ mr ++ [url] <->
             match find_image_url mets_file (stem (snd xml_file)) w3 with
             | Ok (Some (String c0 s0)) => Some (String c0 s0)
             | _ => None
             end = Some url /\ exists_ image_path w = false)).
  { intros w3 Hr3 Hl3 Hf3.
    rewrite (find_image_url_lookup _ _ _ _ Hl3 Hf3), Efind, Hr3, Hr2, Hlog, log_one_more.
    rewrite <- Hex. split; [now intros -> | now intros [[= <-] _]]. }
  assert (Hurl : forall w3, requested w3 = requested w2 ->
            requested w3 = requested w ++ mr ++ [url] -> url = String c' s').
  { intros w3 Hr3 F. rewrite Hr3, Hr2, Hlog in F. now apply log_one_more in F. }
  destruct r as [body|e].
  - bind_inv H. injection H as <- Hw. subst v.
    destruct (lookup_write_file image_path image_path body w2 w' E0) as [Hl Hr].
    destruct (write_file_env _ _ _ _ E0) as [_ Hf].
    split.
    + apply Hend; [exact Hr | | congruence].
      destruct (lookup_write_file image_path mets_file body w2 w' E0) as [-> _].
      destruct (path_eqb image_path mets_file) eqn:Ep.
      * apply path_eqb_eq in Ep. contradiction.
      * unfold lookup. now rewrite He2.
    + intros F. left. exists body. rewrite (Hurl w' Hr F), <- Hhttp. split; [exact Hans|].
      rewrite Hl. now rewrite (proj2 (path_eqb_eq image_path image_path) eq_refl).
  - destruct e; try discriminate. injection H as <- Hw. subst w2. split.
    + apply Hend; [reflexivity | unfold lookup; now rewrite He2 | exact Hf2].
    + intros F. right. rewrite (Hurl w' eq_refl F), <- Hhttp. split; [exact Hans|].
      unfold exists_ in Ex. unfold lookup in *. rewrite He2.
      destruct (Dict.get path_eqb image_path (entries w1)); [discriminate | reflexivity].
Qed.

(** **** The search in the manifest, against the words of the claim *)

Lemma find_first_of (f : Element -> bool) (P : Element -> Prop) (l : list Element) :
  (forall d, f d = true <-> P d) ->
  match List.find f l with
  | Some e => first_of P l e
  | None => forall d, In d l -> ~ P d
  end.
Proof.
  intros Hf. induction l as [|x l IH]; simpl.
  - intros d [].
  - destruct (f x) eqn:E.
    + exists [], l. split; [reflexivity|]. split; [now apply Hf | intros d []].
    + destruct (List.find f l) as [e|].
      * destruct IH as (b & a & -> & HP & Hb). exists (x :: b), a.
        split; [reflexivity|]. split; [exact HP|].
        intros d [<-|Hd]; [intros HPx; apply Hf in HPx; congruence | now apply Hb].
      * intros d [<-|Hd]; [intros HPx; apply Hf in HPx; congruence | now apply IH].
Qed.

Lemma first_of_In (P : Element -> Prop) (l : list Element) (e : Element) :
  first_of P l e -> In e l /\ P e.
Proof. intros (b & a & -> & HP & _). split; [apply in_elt | exact HP]. Qed.

Lemma first_of_unique (P : Element -> Prop) (l : list Element) (e e' : Element) :
  first_of P l e -> first_of P l e' -> e = e'.
Proof.
  intros (b & a & -> & HP & Hb) (b' & a' & Heq & HP' & Hb').
  revert Hb b' Heq Hb'. induction b as [|x b IH]; intros Hb b' Heq Hb'.
  - destruct b' as [|y b']; simpl in Heq.
    + now injection Heq.
    + injection Heq as <- _. exfalso. apply (Hb' e); [now left | exact HP].
  - destruct b' as [|y b']; simpl in Heq.
    + injection Heq as -> _. exfalso. apply (Hb e'); [now left | exact HP'].
    + injection Heq as <- Heq.
      apply (IH (fun d Hd => Hb d (or_intror Hd)) b' Heq).
      intros d Hd. apply Hb'. now right.
Qed.

Lemma carries_test (local key value : string) (d : Element) :
  String.eqb (tag_of d) (mets_ns local) &&
  match attrib_get key d with
  | Some v => String.eqb v value
  | None => false
  end = true <-> carries (mets_ns local) key value d.
Proof.
  unfold carries. rewrite andb_true_iff, String.eqb_eq.
  destruct (attrib_get key d) as [v|].
  - rewrite String.eqb_eq. split; [intros [-> ->]; auto | intros [-> [= ->]]; auto].
  - split; [intros [_ F]; discriminate | intros [_ F]; discriminate].
Qed.

Lemma find_below_with_plain (injected : path_finder) (local key value : string)
      (r : Element) :
  Str.contains_char "'" value = false ->
  exists x,
    find_below_with injected local key value r = Ok x /\
    match x with
    | Some e => first_of (carries (mets_ns local) key value) (descendants r) e
    | None => forall d, In d (descendants r) -> ~ carries (mets_ns local) key value d
    end.
Proof.
  intros H. unfold find_below_with. rewrite H. eexists. split; [reflexivity|].
  apply find_first_of. intros d. apply carries_test.
Qed.

Lemma leads_to_unique (r : Element) (label : string) (f f' : Element) :
  leads_to r label f -> leads_to r label f' -> f = f'.
Proof.
  intros (d & i & fe & Hd & Hi & _ & Hfe & Hf) (d' & i' & fe' & Hd' & Hi' & _ & Hfe' & Hf').
  rewrite (first_of_unique _ _ _ _ Hd' Hd) in Hi'.
  assert (i' = i) by congruence. subst i'.
  rewrite (first_of_unique _ _ _ _ Hfe' Hfe) in Hf'.
  exact (first_of_unique _ _ _ _ Hf Hf').
Qed.

Lemma find_image_url_step (injected : path_finder) (r : Element) (label ext : string)
      (rest : list string) :
  Str.contains_char "'" (label ++ ext)%string = false ->
  plain_ids r ->
  (exists flocat,
     leads_to r (label ++ ext)%string flocat /\
     find_image_url_in injected r label (ext :: rest) = Ok (attrib_get xlink_href flocat)) \/
  ((forall f, ~ leads_to r (label ++ ext)%string f) /\
   find_image_url_in injected r label (ext :: rest) = find_image_url_in injected r label rest).
Proof.
  intros Hl Hids. cbn [find_image_url_in].
  destruct (find_below_with_plain injected "div" "LABEL" (label ++ ext)%string r Hl)
    as (x & -> & Hx).
  cbn [Py.bind]. destruct x as [div_el|].
  2:{ right. split; [|reflexivity].
      intros f (d & i & fe & Hd & _). apply first_of_In in Hd. destruct Hd as [Hin HP].
      exact (Hx d Hin HP). }
  assert (Hdiv : forall d i,
            first_of (carries (mets_ns "div") "LABEL" (label ++ ext)%string) (descendants r) d ->
            attrib_get "ID" d = Some i -> attrib_get "ID" div_el = Some i).
  { intros d i Hd Hi. now rewrite (first_of_unique _ _ _ _ Hx Hd). }
  destruct (attrib_get "ID" div_el) as [[|c i]|] eqn:Eid.
  - right. split; [|reflexivity].
    intros f (d & i & fe & Hd & Hi & Hne & _).
    specialize (Hdiv d i Hd Hi). congruence.
  - assert (Hp : Str.contains_char "'" (String c i ++ "DEF")%string = false).
    { rewrite StrFacts.contains_char_append.
      destruct (first_of_In _ _ _ Hx) as [Hin _].
      rewrite (Hids div_el (String c i) Hin Eid). reflexivity. }
    destruct (find_below_with_plain injected "file" "ID" (String c i ++ "DEF")%string r Hp)
      as (y & -> & Hy).
    cbn [Py.bind]. destruct y as [file_el|].
    2:{ right. split; [|reflexivity].
        intros f (d & i' & fe & Hd & Hi & _ & Hfe & _).
        specialize (Hdiv d i' Hd Hi). injection Hdiv as <-.
        apply first_of_In in Hfe. destruct Hfe as [Hin HP]. exact (Hy fe Hin HP). }
    unfold find_child.
    pose proof (find_first_of (fun d => String.eqb (tag_of d) (mets_ns "FLocat"))
                  (fun c => tag_of c = mets_ns "FLocat") (children_of file_el)
                  (fun d => String.eqb_eq (tag_of d) (mets_ns "FLocat"))) as Hc.
    destruct (List.find (fun d => String.eqb (tag_of d) (mets_ns "FLocat"))
                (children_of file_el)) as [flocat|].
    + left. exists flocat. split; [|reflexivity].
      exists div_el, (String c i), file_el.
      split; [exact Hx|]. split; [exact Eid|]. split; [discriminate|]. split; assumption.
    + right. split; [|reflexivity].
      intros f (d & i' & fe & Hd & Hi & _ & Hfe & Hf).
      specialize (Hdiv d i' Hd Hi). injection Hdiv as <-.
      rewrite (first_of_unique _ _ _ _ Hfe Hy) in Hf.
      apply first_of_In in Hf. destruct Hf as [Hin HP]. exact (Hc f Hin HP).
  - right. split; [|reflexivity].
    intros f (d & i & fe & Hd & Hi & _).
    specialize (Hdiv d i Hd Hi). discriminate.
Qed.

Lemma plain_label_ext (label ext : string) :
  Str.contains_char "'" label = false -> Str.contains_char "'" ext = false ->
  Str.contains_char "'" (label ++ ext)%string = false.
Proof. intros H1 H2. now rewrite StrFacts.contains_char_append, H1, H2. Qed.

Lemma find_image_url_in_resolves (injected : path_finder) (r : Element) (label : string) :
  Str.contains_char "'" label = false ->
  plain_ids r ->
  exists x,
    find_image_url_in injected r label [".tif"; ".jpg"]%string = Ok x /\
    forall url, (x = Some url /\ url <> ""%string) <-> resolves r label url.
Proof.
  intros Hl Hids.
  destruct (find_image_url_step injected r label ".tif" [".jpg"%string]
              (plain_label_ext label ".tif" Hl eq_refl) Hids)
    as [(flocat & Hlead & ->)|[Hno ->]].
  - eexists. split; [reflexivity|]. intros url. split.
    + intros [Hu Hne]. split; [exact Hne|]. exists flocat. split; [exact Hu|]. now left.
    + intros (Hne & f & Hf & [Hlt|[Hno _]]).
      * rewrite (leads_to_unique _ _ _ _ Hlead Hlt). auto.
      * exfalso. exact (Hno flocat Hlead).
  - destruct (find_image_url_step injected r label ".jpg" []
                (plain_label_ext label ".jpg" Hl eq_refl) Hids)
      as [(flocat & Hlead & ->)|[Hno' ->]].
    + eexists. split; [reflexivity|]. intros url. split.
      * intros [Hu Hne]. split; [exact Hne|]. exists flocat. split; [exact Hu|]. now right.
      * intros (Hne & f & Hf & [Hlt|[_ Hlj]]).
        -- exfalso. exact (Hno f Hlt).
        -- rewrite (leads_to_unique _ _ _ _ Hlead Hlj). auto.
    + exists None. split; [reflexivity|]. intros url. split.
      * intros [F _]. discriminate.
      * intros (_ & f & _ & [Hlt|[_ Hlj]]); exfalso; [exact (Hno f Hlt) | exact (Hno' f Hlj)].
Qed.

Lemma label_url_resolves (xml_file : path) (unitid_mets : table) (target_dir : string)
      (w : World) :
  Str.contains_char "'" (stem (snd xml_file)) = false ->
  (forall r, manifest_of xml_file unitid_mets target_dir w = Some r -> plain_ids r) ->
  forall url,
    label_url xml_file unitid_mets target_dir w = Some url <->
    label_resolves xml_file unitid_mets target_dir w url.
Proof.
  unfold label_url, label_resolves, manifest_of, find_image_url.
  intros Hl Hids url.
  destruct (extract_inventory_number (snd xml_file)) as [inv_no|e];
    [|split; [discriminate | intros (r & F & _); discriminate]].
  destruct (mets_url_of unitid_mets inv_no);
    [|split; [discriminate | intros (r & F & _); discriminate]].
  destruct (parse (target_dir, (inv_no ++ ".xml")%string) w) as [r|e];
    [|split; [discriminate | intros (r & F & _); discriminate]].
  cbn [Py.bind].
  destruct (find_image_url_in_resolves (etree_find w) r (stem (snd xml_file)) Hl
              (Hids r eq_refl)) as (x & -> & Hx).
  split.
  - intros H. exists r. split; [reflexivity|]. apply Hx.
    destruct x as [[|c0 s0]|]; try discriminate. injection H as <-. split; [reflexivity|discriminate].
  - intros (r' & [= <-] & Hr). apply Hx in Hr. destruct Hr as [-> Hne].
    destruct url; [contradiction | reflexivity].
Qed.

(** C2, as the code has it.  Take an annotation file whose label holds no
    apostrophe, and whose manifest holds none in an [ID].  When
    [process_file] returns for it, it has requested the page image at a
    URL if and only if the label resolves to that URL in the manifest (with
    [.tif], or else with [.jpg]) and the target directory did not hold the
    image file already.  The image requested is saved under the label with
    [.jpg], unless the URL is invalid: then nothing is saved. *)
Theorem C2_image_fetched_iff (xml_file : path) (unitid_mets : table) (target_dir : string)
        (processed_mets processed_mets' : list string) (w w' : World) :
  process_file xml_file unitid_mets target_dir processed_mets w = Ok (processed_mets', w') ->
  Str.contains_char "'" (stem (snd xml_file)) = false ->
  (forall r, manifest_of xml_file unitid_mets target_dir w' = Some r -> plain_ids r) ->
  forall url,
    (image_fetched xml_file unitid_mets processed_mets w w' url <->
     (label_resolves xml_file unitid_mets target_dir w' url /\
      exists_ (image_path_of xml_file target_dir) w = false)) /\
    (image_fetched xml_file unitid_mets processed_mets w w' url ->
     image_saved xml_file target_dir w w' url \/
     (http w url = InvalidURL /\ lookup (image_path_of xml_file target_dir) w' = None)).
Proof.
  intros H Hl Hids url.
  destruct (process_file_requests _ _ _ _ _ _ _ H url) as [Hiff Hsaved].
  split; [|exact Hsaved].
  rewrite Hiff, (label_url_resolves _ _ _ _ Hl Hids url). reflexivity.
Qed.

Example sample_process_file :
  process_file page_5 sample_table "out" [] sample_world
  = Ok (fst sample_processed, snd sample_processed).
Proof. vm_compute. reflexivity. Qed.

Example sample_process_file_effects :
  requested (snd sample_processed) = ["http://mets/1234"; "http://scans/5.jpg"] /\
  lookup (image_path_of page_5 "out") (snd sample_processed) = Some (Regular (Bytes "JFIF")).
Proof. vm_compute. split; reflexivity. Qed.

Example mets_1234_plain_ids : plain_ids mets_1234.
Proof.
  intros d id Hin Hid. simpl in Hin.
  repeat (destruct Hin as [<-|Hin]; [vm_compute in Hid; try discriminate;
                                      injection Hid as <-; reflexivity|]).
  destruct Hin.
Qed.

Example mets_1234_resolves : resolves mets_1234 label_5 "http://scans/5.jpg".
Proof.
  split; [discriminate|].
  eexists. split; [|left].
  2:{ eexists. exists "p5"%string. eexists. split.
      - eexists (firstn 4 (descendants mets_1234)), []. split; [reflexivity|].
        split; [split; reflexivity|].
        intros d Hd [Ht _]. simpl in Hd.
        repeat (destruct Hd as [<-|Hd]; [vm_compute in Ht; discriminate|]). destruct Hd.
      - split; [reflexivity|]. split; [discriminate|]. split.
        + eexists (firstn 1 (descendants mets_1234)), (skipn 2 (descendants mets_1234)).
          split; [reflexivity|]. split; [split; reflexivity|].
          intros d Hd [Ht _]. simpl in Hd.
          repeat (destruct Hd as [<-|Hd]; [vm_compute in Ht; discriminate|]). destruct Hd.
        + exists [], []. split; [reflexivity|]. split; [reflexivity | intros d []]. }
  reflexivity.
Qed.

Lemma C2_image_fetched_iff_witness :
  (image_fetched page_5 sample_table [] sample_world (snd sample_processed)
                 "http://scans/5.jpg" <->
   (label_resolves page_5 sample_table "out" (snd sample_processed) "http://scans/5.jpg" /\
    exists_ (image_path_of page_5 "out") sample_world = false)) /\
  (image_fetched page_5 sample_table [] sample_world (snd sample_processed)
                 "http://scans/5.jpg" ->
   image_saved page_5 "out" sample_world (snd sample_processed) "http://scans/5.jpg" \/
   (http sample_world "http://scans/5.jpg" = InvalidURL /\
    lookup (image_path_of page_5 "out") (snd sample_processed) = None)).
Proof.
  apply (C2_image_fetched_iff page_5 sample_table "out" [] (fst sample_processed)
           sample_world (snd sample_processed) sample_process_file).
  - reflexivity.
  - intros r Hr. vm_compute in Hr. injection Hr as <-. exact mets_1234_plain_ids.
Defined.

(** The claim as the specification words it fails when the image is
    already there: the label resolves in the manifest, and the only request
    of the call is the one for the manifest. *)
Lemma C2_existing_image_counterexample :
  exists pm' w',
    process_file page_5 sample_table "out" [] world_with_image = Ok (pm', w') /\
    label_resolves page_5 sample_table "out" w' "http://scans/5.jpg" /\
    mets_request page_5 sample_table [] = ["http://mets/1234"] /\
    requested w' = ["http://mets/1234"] /\
    forall url, ~ image_fetched page_5 sample_table [] world_with_image w' url.
Proof.
  do 2 eexists. split; [vm_compute; reflexivity|].
  split; [exists mets_1234; split; [reflexivity | exact mets_1234_resolves]|].
  split; [reflexivity|]. split; [reflexivity|].
  intros url F. unfold image_fetched in F. vm_compute in F. discriminate.
Qed.

End DownloaderFacts.

(** * Further properties of the code *)

(** ** The converter *)

Module ConverterExtras.
Import Converter ConverterSpec ConverterMoreSpec ConverterFacts.
Unset Implicit Arguments.
Local Open Scope string_scope.
Local Open Scope nat_scope.
Local Open Scope list_scope.

(** *** The area of a polygon *)


(** *** Grouping *)

Example table_2x2_grouped :
  group_cells_by_row_and_column (TableCells table_2x2)
  = Ok (fst table_2x2_groups, snd table_2x2_groups).
Proof. vm_compute. reflexivity. Qed.

Lemma group_loop_raises (cells : list TableCell) :
  forall rows columns e,
    group_loop cells rows columns = Raise e -> e = KeyError \/ e = ValueError.
Proof.
  induction cells as [|c cells IH]; intros rows columns e H; simpl in H; [discriminate|].
  unfold getitem, Str.int in H.
  destruct (Dict.get String.eqb "row" (attrs c)); simpl in H; [|injection H as <-; auto].
  match type of H with
  | context [match ?p with Some _ => _ | None => _ end] => destruct p
  end; simpl in H; [|injection H as <-; auto].
  destruct (Dict.get String.eqb "col" (attrs c)); simpl in H; [|injection H as <-; auto].
  match type of H with
  | context [match ?p with Some _ => _ | None => _ end] => destruct p
  end; simpl in H; [|injection H as <-; auto].
  eapply IH; eauto.
Qed.

(** [group_cells_by_row_and_column] returns exactly on the lists whose
    cells all carry an integer [row] and an integer [col] attribute;
    otherwise it raises [KeyError] (an attribute is missing) or
    [ValueError] (an attribute is no integer), and nothing else. *)
Theorem group_cells_returns_iff (cells : list TableCell) :
  ((exists rows columns, group_cells_by_row_and_column cells = Ok (rows, columns)) <->
   (forall c, In c cells ->
      exists r k, cell_key "row" c = Ok r /\ cell_key "col" c = Ok k)) /\
  (forall e, group_cells_by_row_and_column cells = Raise e ->
             e = KeyError \/ e = ValueError).
Proof.
  split; [split|].
  - intros (rows & columns & H). unfold group_cells_by_row_and_column in H.
    apply group_loop_spec in H. tauto.
  - intros H. exact (@group_loop_total cells H [] []).
  - intros e H. exact (group_loop_raises cells [] [] e H).
Qed.

Lemma group_sizes_set_old (k : Z) (v l : list TableCell) (d : groups) :
  Dict.get Z.eqb k d = Some l ->
  group_sizes (Dict.set Z.eqb k v d) + List.length l = group_sizes d + List.length v.
Proof.
  unfold group_sizes. induction d as [|[k' l'] d IH]; simpl; [discriminate|].
  destruct (Z.eqb k k'); simpl.
  - intros [= ->]. lia.
  - intros H. specialize (IH H). lia.
Qed.

Lemma group_sizes_set_new (k : Z) (v : list TableCell) (d : groups) :
  Dict.get Z.eqb k d = None ->
  group_sizes (Dict.set Z.eqb k v d) = group_sizes d + List.length v.
Proof.
  unfold group_sizes. induction d as [|[k' l'] d IH]; simpl; [lia|].
  destruct (Z.eqb k k'); simpl; [discriminate|].
  intros H. rewrite (IH H). lia.
Qed.

Lemma group_sizes_append (k : Z) (c : TableCell) (d : groups) :
  group_sizes (append_to_group k c d) = Datatypes.S (group_sizes d).
Proof.
  unfold append_to_group, Dict.mem.
  destruct (Dict.get Z.eqb k d) as [l|] eqn:E; simpl.
  - rewrite E. pose proof (group_sizes_set_old k (l ++ [c]) l d E) as H.
    rewrite length_app in H. simpl in H. lia.
  - rewrite (DictFacts.get_set_same Z.eqb Z.eqb_eq).
    pose proof (group_sizes_set_new k [] d E) as H0.
    pose proof (group_sizes_set_old k ([] ++ [c]) [] (Dict.set Z.eqb k [] d)
                  (DictFacts.get_set_same Z.eqb Z.eqb_eq k [] d)) as H1.
    simpl in *. lia.
Qed.

Lemma group_loop_sizes (cells : list TableCell) :
  forall rows columns rows' columns',
    group_loop cells rows columns = Ok (rows', columns') ->
    group_sizes rows' = group_sizes rows + List.length cells /\
    group_sizes columns' = group_sizes columns + List.length cells.
Proof.
  induction cells as [|c cells IH]; intros rows columns rows' columns' H; simpl in H.
  - injection H as <- <-. simpl. lia.
  - bind_inv H. bind_inv H. bind_inv H. bind_inv H.
    apply IH in H. rewrite !group_sizes_append in H. simpl. lia.
Qed.

(** The row groups partition the cells, and so do the column groups: the
    sizes of the groups add up to the number of cells. *)
Theorem group_cells_partition (cells : list TableCell) (rows columns : groups) :
  group_cells_by_row_and_column cells = Ok (rows, columns) ->
  group_sizes rows = List.length cells /\ group_sizes columns = List.length cells.
Proof. intros H. apply group_loop_sizes in H. exact H. Qed.

Lemma group_cells_partition_witness :
  group_sizes (fst table_2x2_groups) = 4 /\ group_sizes (snd table_2x2_groups) = 4.
Proof.
  exact (group_cells_partition (TableCells table_2x2) (fst table_2x2_groups)
           (snd table_2x2_groups) table_2x2_grouped).
Defined.

Lemma nodup_later_duplicate (k : Z) (x y : list Z) :
  In k y -> nodup Z.eq_dec (x ++ k :: y) = nodup Z.eq_dec (x ++ y).
Proof.
  intros Hk. induction x as [|h x IH]; simpl.
  - destruct (in_dec Z.eq_dec k y); [reflexivity | contradiction].
  - rewrite IH.
    destruct (in_dec Z.eq_dec h (x ++ k :: y)) as [H1|H1];
      destruct (in_dec Z.eq_dec h (x ++ y)) as [H2|H2]; try reflexivity; exfalso.
    + apply H2. apply in_app_or in H1. apply in_or_app.
      destruct H1 as [H1|[->|H1]]; auto.
    + apply H1. apply in_app_or in H2. apply in_or_app.
      destruct H2 as [H2|H2]; [now left | now right; right].
Qed.

Lemma first_occurrences_repeat (k : Z) (a b : list Z) :
  In k a -> first_occurrences (a ++ k :: b) = first_occurrences (a ++ b).
Proof.
  intros H. unfold first_occurrences. rewrite !rev_app_distr. simpl.
  rewrite <- app_assoc. simpl.
  rewrite nodup_later_duplicate by now apply -> in_rev. reflexivity.
Qed.

Lemma first_occurrences_NoDup (l : list Z) : NoDup l -> first_occurrences l = l.
Proof.
  intros H. unfold first_occurrences.
  rewrite nodup_fixed_point by now apply NoDup_rev. apply rev_involutive.
Qed.

Lemma append_to_group_keys (k : Z) (c : TableCell) (d : groups) :
  Dict.keys (append_to_group k c d) =
  if Dict.mem Z.eqb k d then Dict.keys d else Dict.keys d ++ [k].
Proof.
  unfold append_to_group.
  destruct (Dict.mem Z.eqb k d) eqn:M; simpl; unfold Dict.mem in M.
  - destruct (Dict.get Z.eqb k d) as [l|] eqn:E; [|discriminate].
    rewrite (DictFacts.keys_set Z.eqb). unfold Dict.mem. now rewrite E.
  - destruct (Dict.get Z.eqb k d) as [l|] eqn:E; [discriminate|].
    rewrite (DictFacts.get_set_same Z.eqb Z.eqb_eq), (DictFacts.keys_set Z.eqb).
    unfold Dict.mem. rewrite (DictFacts.get_set_same Z.eqb Z.eqb_eq).
    rewrite (DictFacts.keys_set Z.eqb). unfold Dict.mem. now rewrite E.
Qed.

Lemma keys_step (attr : string) (r : Z) (c : TableCell) (cells : list TableCell) (d : groups) :
  cell_key attr c = Ok r ->
  first_occurrences (Dict.keys (append_to_group r c d) ++ keys_of attr cells)
  = first_occurrences (Dict.keys d ++ keys_of attr (c :: cells)).
Proof.
  intros Hr. simpl. rewrite Hr. simpl. rewrite append_to_group_keys. unfold Dict.mem.
  destruct (Dict.get Z.eqb r d) as [l|] eqn:E.
  - symmetry. apply first_occurrences_repeat.
    apply (DictFacts.get_In Z.eqb Z.eqb_eq) in E. now apply (in_map fst) in E.
  - now rewrite <- app_assoc.
Qed.

Lemma group_loop_keys (cells : list TableCell) :
  forall rows columns rows' columns',
    NoDup (Dict.keys rows) -> NoDup (Dict.keys columns) ->
    group_loop cells rows columns = Ok (rows', columns') ->
    Dict.keys rows' = first_occurrences (Dict.keys rows ++ keys_of "row" cells) /\
    Dict.keys columns' = first_occurrences (Dict.keys columns ++ keys_of "col" cells).
Proof.
  induction cells as [|c cells IH]; intros rows columns rows' columns' Hr Hc H.
  - simpl in H. injection H as <- <-. simpl. rewrite !app_nil_r.
    now rewrite !first_occurrences_NoDup.
  - cbn [group_loop] in H. bind_inv H. bind_inv H. bind_inv H. bind_inv H.
    assert (Kr : cell_key "row" c = Ok v0) by (unfold cell_key; rewrite E; exact E0).
    assert (Kc : cell_key "col" c = Ok v2) by (unfold cell_key; rewrite E1; exact E2).
    apply IH in H; try now apply append_to_group_NoDup.
    destruct H as [H1 H2]. rewrite H1, H2. split; now apply keys_step.
Qed.

(** The groups stand in the dictionaries in the order in which their keys
    first occur among the cells; this is the order in which the converter
    emits their records. *)
Theorem group_cells_key_order (cells : list TableCell) (rows columns : groups) :
  group_cells_by_row_and_column cells = Ok (rows, columns) ->
  Dict.keys rows = first_occurrences (keys_of "row" cells) /\
  Dict.keys columns = first_occurrences (keys_of "col" cells).
Proof.
  intros H. apply group_loop_keys in H; [exact H | constructor | constructor].
Qed.

Lemma group_cells_key_order_witness :
  Dict.keys (fst table_2x2_groups) = [0%Z; 1%Z] /\
  Dict.keys (snd table_2x2_groups) = [0%Z; 1%Z].
Proof.
  exact (group_cells_key_order (TableCells table_2x2) (fst table_2x2_groups)
           (snd table_2x2_groups) table_2x2_grouped).
Defined.

(** *** Records *)

Lemma categories_conversion_value :
  _categories_conversion = [("TableRow", 1%Z); ("TableColumn", 2%Z)].
Proof. reflexivity. Qed.

(** For a point array that is not empty, [_anno_template] returns exactly
    when the tag is one of the two category names, and raises [KeyError]
    for every other tag. *)
Theorem anno_template_returns_iff (n idx : nat) (p : point) (pts : list point)
        (tag : string) :
  ((exists a, _anno_template n idx (p :: pts) tag = Ok a) <->
   (tag = "TableRow" \/ tag = "TableColumn")) /\
  (tag <> "TableRow" -> tag <> "TableColumn" ->
   _anno_template n idx (p :: pts) tag = Raise KeyError).
Proof.
  unfold _anno_template. rewrite categories_conversion_value.
  cbn [map array_min array_max Py.bind Dict.get].
  destruct (String.eqb_spec tag "TableRow") as [->|H1];
    [|destruct (String.eqb_spec tag "TableColumn") as [->|H2]].
  - split; [split|]; eauto. intros H. contradiction.
  - split; [split|]; eauto. intros _ H. contradiction.
  - split; [split|]; auto.
    + intros (a & H). discriminate.
    + intros [H|H]; contradiction.
Qed.





(** *** Images and their records *)

Lemma file_images_ids (self : PRIMADataset) (idx : nat) (image_id : string) :
  map img_id (file_images self idx image_id) =
  if Dict.mem String.eqb (image_id ++ ".jpg")%string (Images (disk self)) then [idx] else [].
Proof.
  unfold file_images, Dict.mem.
  destruct (Dict.get String.eqb (image_id ++ ".jpg")%string (Images (disk self))) as [[w h]|];
    reflexivity.
Qed.

Lemma filter_map_fst {A B : Type} (p : A * B -> bool) (q : A -> bool) (l : list (A * B)) :
  (forall it, In it l -> p it = q (fst it)) ->
  map fst (filter p l) = filter q (map fst l).
Proof.
  induction l as [|it l IH]; intros H; simpl; [reflexivity|].
  rewrite <- (H it (or_introl eq_refl)).
  destruct (p it); simpl; rewrite IH; auto; intros; apply H; now right.
Qed.

(** The image records of the output are those of the indices whose image
    file exists, in ascending order: a file without image is skipped, and
    the numbers of the others keep its place free. *)
Theorem image_ids_of_output (S : Shapely) (self : PRIMADataset) (out : coco) :
  convert_to_COCO S self = Ok out ->
  map img_id (images out) = filter (has_image self) (seq 0 (List.length (_ids self))).
Proof.
  intros H. apply convert_to_COCO_spec in H. destruct H as (ls & _ & _ & -> & _).
  rewrite <- (map_fst_combine (seq 0 (List.length (_ids self))) (_ids self))
    by apply length_seq.
  fold (enumerate (_ids self)).
  rewrite <- (filter_map_fst
                (fun it => Dict.mem String.eqb (snd it ++ ".jpg")%string (Images (disk self)))).
  - induction (enumerate (_ids self)) as [|[i id] l IH]; simpl; [reflexivity|].
    rewrite map_app, file_images_ids, IH.
    destruct (Dict.mem String.eqb (id ++ ".jpg")%string (Images (disk self))); reflexivity.
  - intros [i id] Hin. apply enumerate_In in Hin. unfold has_image. simpl. now rewrite Hin.
Qed.

Lemma image_ids_of_output_witness :
  map img_id (images sample_out) = [0; 1].
Proof. exact (image_ids_of_output Rings (__init__ sample_disk) sample_out sample_run). Defined.

(** Every annotation record refers to an image record of the same output,
    the one of the file it was read from. *)
Theorem annotation_has_image (S : Shapely) (self : PRIMADataset) (out : coco) (a : annotation) :
  convert_to_COCO S self = Ok out ->
  In a (annotations out) ->
  exists im stem,
    In im (images out) /\ img_id im = image_id a /\
    nth_error (_ids self) (image_id a) = Some stem /\
    file_name im = (stem ++ ".jpg")%string.
Proof.
  intros H Hin. destruct (annotations_emitted S self out a H Hin) as (a0 & Hem & ->).
  apply convert_to_COCO_spec in H. destruct H as (ls & _ & _ & Himg & _).
  destruct Hem as [idx image_id anno item rows columns d tag bs k pts
                     Hid Hjpg _ _ _ _ _ _ _ Ht].
  apply anno_template_fields in Ht.
  destruct Ht as (x_1 & x_2 & y_1 & y_2 & cat & _ & _ & _ & _ & _ & ->). simpl.
  destruct (Dict.get String.eqb (image_id ++ ".jpg")%string (Images (disk self)))
    as [size|] eqn:E; [|contradiction].
  exists (_image_template idx (image_id ++ ".jpg")%string size), image_id.
  split; [|split; [|split]].
  - rewrite Himg. apply in_flat_map. exists (idx, image_id).
    split; [now apply enumerate_In|]. unfold file_images. simpl. rewrite E. now left.
  - now destruct size.
  - exact Hid.
  - now destruct size.
Qed.

Lemma annotation_has_image_witness :
  exists im stem,
    In im (images sample_out) /\ img_id im = image_id sample_record /\
    nth_error (_ids (__init__ sample_disk)) (image_id sample_record) = Some stem /\
    file_name im = (stem ++ ".jpg")%string.
Proof.
  exact (annotation_has_image Rings (__init__ sample_disk) sample_out sample_record
           sample_run sample_record_In).
Defined.

(** *** The order of the records *)

(** The records of the output are sorted by file: a record never comes
    before a record of an earlier file. *)
Theorem annotations_sorted_by_image (S : Shapely) (self : PRIMADataset) (out : coco) :
  convert_to_COCO S self = Ok out ->
  StronglySorted le (map image_id (annotations out)).
Proof.
  intros H. apply convert_to_COCO_spec in H. destruct H as (ls & Hls & -> & _).
  rewrite renumber_image_ids.
  apply (files_records_sorted S self (enumerate (_ids self)) ls); [|exact Hls].
  unfold enumerate. rewrite map_fst_combine by apply length_seq. apply seq_sorted.
Qed.

Lemma annotations_sorted_by_image_witness :
  StronglySorted le (map image_id (annotations sample_out)).
Proof.
  exact (annotations_sorted_by_image Rings (__init__ sample_disk) sample_out sample_run).
Defined.

(** *** Boundaries *)

(** The boundaries come in the order of the groups, each under the key of
    its group and at most one for a group. *)
Theorem boundaries_follow_groups (S : Shapely) (d : groups) (bs : list (Z * list point)) :
  calculate_group_boundaries S d = Ok bs ->
  subsequence (map fst bs) (Dict.keys d) /\ List.length bs <= List.length d.
Proof.
  revert bs. induction d as [|[k cells] d IH]; intros bs H;
    cbn [calculate_group_boundaries] in H.
  - injection H as <-. split; [constructor | reflexivity].
  - assert (Hskip : forall bs', calculate_group_boundaries S d = Ok bs' ->
              subsequence (map fst bs') (Dict.keys ((k, cells) :: d)) /\
              List.length bs' <= List.length ((k, cells) :: d)).
    { intros bs' H'. destruct (IH _ H') as [H1 H2]. split; [now constructor | simpl; lia]. }
    assert (Hkeep : forall pts bs', calculate_group_boundaries S d = Ok bs' ->
              subsequence (map fst ((k, pts) :: bs')) (Dict.keys ((k, cells) :: d)) /\
              List.length ((k, pts) :: bs') <= List.length ((k, cells) :: d)).
    { intros pts bs' H'. destruct (IH _ H') as [H1 H2].
      split; [now apply subsequence_keep | simpl; lia]. }
    bind_inv H. destruct v as [|p ps]; [now apply Hskip|].
    cbv zeta in H.
    destruct (String.eqb (geom_type S (unary_union S (p :: ps))) "Polygon").
    + bind_inv H. injection H as <-. now apply Hkeep.
    + destruct (String.eqb (geom_type S (unary_union S (p :: ps))) "MultiPolygon");
        [|now apply Hskip].
      bind_inv H. bind_inv H. injection H as <-. now apply Hkeep.
Qed.

Example table_2x2_row_boundaries_run :
  calculate_group_boundaries Rings (fst table_2x2_groups) = Ok table_2x2_row_boundaries.
Proof. vm_compute. reflexivity. Qed.

Lemma boundaries_follow_groups_witness :
  subsequence (map fst table_2x2_row_boundaries) (Dict.keys (fst table_2x2_groups)) /\
  List.length table_2x2_row_boundaries <= List.length (fst table_2x2_groups).
Proof.
  exact (boundaries_follow_groups Rings (fst table_2x2_groups) table_2x2_row_boundaries
           table_2x2_row_boundaries_run).
Defined.

(** *** What a run requires of the annotation files *)

Lemma cell_polygons_cells (S : Shapely) (cells : list TableCell) :
  forall polys, cell_polygons S cells = Ok polys ->
    forall c, In c cells -> cell_Coords c <> None.
Proof.
  induction cells as [|c0 cells IH]; intros polys H c Hin; [destruct Hin|].
  cbn [cell_polygons] in H. bind_inv H.
  assert (Hrest : exists polys', cell_polygons S cells = Ok polys').
  { destruct (3 <=? List.length v); [|eauto]. bind_inv H. bind_inv H. eauto. }
  destruct Hin as [<-|Hin].
  - intros Hnone. rewrite Hnone in E. discriminate.
  - destruct Hrest as (polys' & Hp). exact (IH _ Hp c Hin).
Qed.

Lemma boundaries_groups_ok (S : Shapely) (d : groups) :
  forall bs, calculate_group_boundaries S d = Ok bs ->
    forall k cells, In (k, cells) d -> exists polys, cell_polygons S cells = Ok polys.
Proof.
  induction d as [|[k0 cells0] d IH]; intros bs H k cells Hin; [destruct Hin|].
  cbn [calculate_group_boundaries] in H. bind_inv H.
  assert (Hrest : exists bs', calculate_group_boundaries S d = Ok bs').
  { destruct v as [|p ps]; [eauto|]. cbv zeta in H.
    destruct (String.eqb (geom_type S (unary_union S (p :: ps))) "Polygon").
    - bind_inv H. eauto.
    - destruct (String.eqb (geom_type S (unary_union S (p :: ps))) "MultiPolygon");
        [|eauto]. bind_inv H. bind_inv H. eauto. }
  destruct Hin as [Hin|Hin].
  - injection Hin as <- <-. eauto.
  - destruct Hrest as (bs' & Hb). exact (IH _ Hb k cells Hin).
Qed.

Lemma regions_records_ok (S : Shapely) (idx : nat) (items : list TableRegion) :
  forall l, regions_records S idx items = Ok l ->
    forall item, In item items -> exists l0, region_records S idx item = Ok l0.
Proof.
  induction items as [|it items IH]; intros l H item Hin; [destruct Hin|].
  simpl in H. bind_inv H. bind_inv H.
  destruct Hin as [<-|Hin]; [eauto | exact (IH _ E0 item Hin)].
Qed.

Lemma files_records_ok (S : Shapely) (self : PRIMADataset) (items : list (nat * string)) :
  forall ls, files_records S self items = Ok ls ->
    forall idx image_id, In (idx, image_id) items ->
      exists l, file_records S self idx image_id = Ok l.
Proof.
  induction items as [|[i id] items IH]; intros ls H idx image_id Hin; [destruct Hin|].
  simpl in H. bind_inv H. bind_inv H.
  destruct Hin as [Hin|Hin]; [injection Hin as <- <-; eauto | exact (IH _ E0 _ _ Hin)].
Qed.

(** A run returns only if, for every file that has an image, the
    annotation file is found and each cell of each of its table regions has
    a [Coords] element and integer [row] and [col] attributes: one cell
    without them makes the whole conversion raise. *)
Theorem convert_requires_well_formed_cells (S : Shapely) (self : PRIMADataset) (out : coco)
        (idx : nat) :
  convert_to_COCO S self = Ok out ->
  has_image self idx = true ->
  exists anno,
    load_annotation self idx = Ok anno /\
    forall item c, In item anno -> In c (TableCells item) ->
      cell_Coords c <> None /\
      exists r k, cell_key "row" c = Ok r /\ cell_key "col" c = Ok k.
Proof.
  intros H Himg. apply convert_to_COCO_spec in H. destruct H as (ls & Hls & _).
  unfold has_image in Himg.
  destruct (nth_error (_ids self) idx) as [id|] eqn:Eid; [|discriminate].
  destruct (files_records_ok S self _ ls Hls idx id) as (l & Hl); [now apply enumerate_In|].
  unfold file_records in Hl. unfold Dict.mem in Himg.
  destruct (Dict.get String.eqb (id ++ ".jpg")%string (Images (disk self)));
    [|discriminate].
  bind_inv Hl. exists v. split; [exact E|].
  intros item c Hitem Hc.
  destruct (regions_records_ok S idx v l Hl item Hitem) as (l0 & Hr).
  unfold region_records in Hr. bind_inv Hr. destruct v0 as [rows columns].
  bind_inv Hr.
  pose proof (@group_cells_returned _ _ _ E0) as [(_ & _ & Hmem & _) _].
  destruct (Hmem c Hc) as (k & cells & Hk & Hin & Hcin & _).
  destruct (boundaries_groups_ok S rows v0 E1 k cells Hin) as (polys & Hp).
  split; [exact (cell_polygons_cells S cells polys Hp c Hcin)|].
  unfold group_cells_by_row_and_column in E0. apply group_loop_spec in E0.
  destruct E0 as (Hall & _). exact (Hall c Hc).
Qed.

Lemma convert_requires_well_formed_cells_witness :
  exists anno,
    load_annotation (__init__ sample_disk) 0 = Ok anno /\
    forall item c, In item anno -> In c (TableCells item) ->
      cell_Coords c <> None /\
      exists r k, cell_key "row" c = Ok r /\ cell_key "col" c = Ok k.
Proof.
  exact (convert_requires_well_formed_cells Rings (__init__ sample_disk) sample_out 0
           sample_run eq_refl).
Defined.

(** *** Loading the annotation of an index *)



End ConverterExtras.

(** ** Strings *)



(** ** The downloader *)

Module DownloaderExtras.
Import Downloader DownloaderSpec DownloaderMoreSpec DownloaderFacts.
Unset Implicit Arguments.
Local Open Scope string_scope.
Local Open Scope nat_scope.
Local Open Scope list_scope.

(** *** The inventory number of a file name *)

Lemma first_piece_nth (p : string) (l : list string) :
  l <> [] -> nth_error (p :: l) 1 = Some (first_piece l).
Proof. destruct l; [contradiction | reflexivity]. Qed.

Lemma first_piece_match (l : list string) :
  l <> [] ->
  match l with inv :: _ => Ok inv | [] => Raise IndexError end = Ok (first_piece l).
Proof. destruct l; [contradiction | reflexivity]. Qed.

(** [extract_inventory_number] raises nothing but [ValueError], and the
    number it returns holds no underscore. *)
Theorem extract_inventory_number_clean (filename : string) :
  (forall inv, extract_inventory_number filename = Ok inv ->
               Str.contains_char "_" inv = false) /\
  (forall e, extract_inventory_number filename = Raise e -> e = ValueError).
Proof.
  unfold extract_inventory_number.
  destruct (nth_error (Str.split "1.04.02_" filename) 1) as [rest|].
  - unfold Str.split.
    rewrite (first_piece_match _ (StrFacts.split_from_nonempty "_" rest 0 "")).
    split.
    + intros inv [= <-]. now apply StrFacts.split_underscore_clean.
    + intros e H. discriminate.
  - split; [intros inv H; discriminate | now intros e [= <-]].
Qed.

(** A file name of the archive's scheme gives its inventory number: for
    a name made of a prefix without the character 1, the archive code
    [1.04.02_], a number in digits, an underscore and the rest,
    [extract_inventory_number] returns the number. *)
Theorem extract_inventory_number_archive_name (pre inv rest : string) :
  Str.contains_char "1" pre = false ->
  Str.all_digits inv = true ->
  extract_inventory_number (pre ++ archive_code ++ inv ++ "_" ++ rest)%string = Ok inv.
Proof.
  intros Hpre Hinv. unfold extract_inventory_number, Str.split.
  fold archive_code. rewrite (StrFacts.split_code_skip _ _ Hpre).
  set (u := (inv ++ "_" ++ rest)%string).
  assert (Hcode : Str.split_from archive_code 0 (Str.rev_acc pre "") (archive_code ++ u)%string
                  = Str.rev (Str.rev_acc pre "")
                    :: Str.split_from archive_code 0 "" u).
  { unfold archive_code at 2. cbn [append Str.split_from].
    change (String "1" (String "." (String "0" (String "4" (String "."
             (String "0" (String "2" (String "_" u))))))))
      with (archive_code ++ u)%string.
    rewrite StrFacts.prefix_append. reflexivity. }
  rewrite Hcode.
  rewrite (first_piece_nth _ _ (StrFacts.split_from_nonempty archive_code u 0 "")).
  destruct (StrFacts.split_code_digits inv rest Hinv "") as (x & Hx).
  unfold u. cbn [append] in Hx |- *. rewrite Hx.
  rewrite (first_piece_match _ (StrFacts.split_from_nonempty "_" _ 0 "")).
  change (Str.rev "" ++ inv ++ String "_" x)%string with (inv ++ String "_" x)%string.
  rewrite (StrFacts.split_underscore_first inv x (StrFacts.digits_no_underscore inv Hinv) "").
  reflexivity.
Qed.

Lemma extract_inventory_number_archive_name_witness :
  extract_inventory_number "NL-HaNA_1.04.02_1234_0005.xml" = Ok "1234"%string.
Proof.
  exact (extract_inventory_number_archive_name "NL-HaNA_" "1234" "0005.xml" eq_refl eq_refl).
Defined.

(** *** Resolving a label in a manifest *)

(** A URL that [find_image_url] returns for a label without apostrophe, on
    a manifest without apostrophe in an [ID], is read off the manifest as
    the source prescribes: some [div] below the root carries the label with
    one of the extensions and a non-empty [ID]; a [file] element whose
    [ID] is that [ID] followed by [DEF] has an [FLocat] child, and the URL
    is its [xlink:href]. *)
Theorem find_image_url_sound (injected : path_finder) (r : Element) (label : string)
        (exts : list string) (url : string) :
  Str.contains_char "'" label = false ->
  Forall (fun ext => Str.contains_char "'" ext = false) exts ->
  plain_ids r ->
  find_image_url_in injected r label exts = Ok (Some url) ->
  exists ext div_el div_id file_el flocat,
    In ext exts /\
    In div_el (descendants r) /\ tag_of div_el = mets_ns "div" /\
    attrib_get "LABEL" div_el = Some (label ++ ext)%string /\
    attrib_get "ID" div_el = Some div_id /\ div_id <> ""%string /\
    In file_el (descendants r) /\ tag_of file_el = mets_ns "file" /\
    attrib_get "ID" file_el = Some (div_id ++ "DEF")%string /\
    In flocat (children_of file_el) /\ tag_of flocat = mets_ns "FLocat" /\
    attrib_get xlink_href flocat = Some url.
Proof.
  intros Hl Hexts Hids.
  induction Hexts as [|ext exts Hext Hexts IH]; intros H; [discriminate|].
  destruct (find_image_url_step injected r label ext exts
              (plain_label_ext label ext Hl Hext) Hids)
    as [(flocat & Hlead & Hres)|[_ Hres]]; rewrite Hres in H.
  - injection H as H. destruct Hlead as (d & i & fe & Hd & Hi & Hne & Hfe & Hf).
    apply first_of_In in Hd. destruct Hd as [Hd1 [Hd2 Hd3]].
    apply first_of_In in Hfe. destruct Hfe as [Hf1 [Hf2 Hf3]].
    apply first_of_In in Hf. destruct Hf as [Hl1 Hl2].
    exists ext, d, i, fe, flocat.
    repeat (split; [first [now left | assumption]|]). exact H.
  - destruct (IH H) as (e & d & i & fe & fl & Hin & Hrest).
    exists e, d, i, fe, fl. split; [now right | exact Hrest].
Qed.

Lemma find_image_url_sound_witness :
  exists ext div_el div_id file_el flocat,
    In ext [".tif"; ".jpg"]%string /\
    In div_el (descendants mets_1234) /\ tag_of div_el = mets_ns "div" /\
    attrib_get "LABEL" div_el = Some (label_5 ++ ext)%string /\
    attrib_get "ID" div_el = Some div_id /\ div_id <> ""%string /\
    In file_el (descendants mets_1234) /\ tag_of file_el = mets_ns "file" /\
    attrib_get "ID" file_el = Some (div_id ++ "DEF")%string /\
    In flocat (children_of file_el) /\ tag_of flocat = mets_ns "FLocat" /\
    attrib_get xlink_href flocat = Some "http://scans/5.jpg"%string.
Proof.
  apply (find_image_url_sound sample_finder mets_1234 label_5 [".tif"; ".jpg"]%string
           "http://scans/5.jpg").
  - reflexivity.
  - repeat constructor.
  - exact mets_1234_plain_ids.
  - reflexivity.
Defined.

Lemma find_none_iff {A : Type} (p : A -> bool) (l : list A) :
  (forall x, In x l -> p x = false) -> List.find p l = None.
Proof.
  induction l as [|x l IH]; intros H; simpl; [reflexivity|].
  rewrite (H x (or_introl eq_refl)). apply IH. intros y Hy. apply H. now right.
Qed.

(** When no [div] of the manifest carries the label with one of the two
    extensions, [find_image_url] returns [None]. *)
Theorem find_image_url_unknown_label (injected : path_finder) (r : Element)
        (label : string) :
  Str.contains_char "'" label = false ->
  (forall d ext, In d (descendants r) -> tag_of d = mets_ns "div" ->
                 In ext [".tif"; ".jpg"]%string ->
                 attrib_get "LABEL" d <> Some (label ++ ext)%string) ->
  find_image_url_in injected r label [".tif"; ".jpg"]%string = Ok None.
Proof.
  intros Hq Hno.
  assert (Hfind : forall ext, In ext [".tif"; ".jpg"]%string ->
            find_below_with injected "div" "LABEL" (label ++ ext)%string r = Ok None).
  { intros ext Hext. unfold find_below_with.
    rewrite StrFacts.contains_char_append, Hq.
    assert (Hx : Str.contains_char "'" ext = false)
      by (destruct Hext as [<-|[<-|[]]]; reflexivity).
    rewrite Hx. cbn [orb]. f_equal. apply find_none_iff. intros d Hd.
    destruct (String.eqb_spec (tag_of d) (mets_ns "div")) as [Ht|]; [|reflexivity].
    cbn [andb]. specialize (Hno d ext Hd Ht Hext).
    destruct (attrib_get "LABEL" d) as [v|]; [|reflexivity].
    apply String.eqb_neq. congruence. }
  cbn [find_image_url_in].
  rewrite (Hfind ".tif"%string) by (now left). cbn [Py.bind].
  rewrite (Hfind ".jpg"%string) by (right; now left). reflexivity.
Qed.

Lemma find_image_url_unknown_label_witness :
  find_image_url_in sample_finder ead_1234 label_5 [".tif"; ".jpg"]%string = Ok None.
Proof.
  apply find_image_url_unknown_label; [reflexivity|].
  intros d ext Hd Ht Hext. simpl in Hd.
  destruct Hd as [<-|[<-|[<-|[]]]]; discriminate.
Defined.

(** *** Files *)

Lemma path_eqb_refl (p : path) : path_eqb p p = true.
Proof. now apply path_eqb_eq. Qed.

Lemma path_eqb_neq (p q : path) : p <> q -> path_eqb p q = false.
Proof.
  intros H. destruct (path_eqb p q) eqn:E; [|reflexivity].
  apply path_eqb_eq in E. contradiction.
Qed.

Lemma get_remove_entry (p q : path) (es : Dict.t path entry) :
  Dict.get path_eqb q (remove_entry p es) =
  if path_eqb q p then None else Dict.get path_eqb q es.
Proof.
  unfold remove_entry. induction es as [|[k e] es IH]; simpl.
  - now destruct (path_eqb q p).
  - destruct (path_eqb k p) eqn:Ek; simpl.
    + apply path_eqb_eq in Ek. subst k. rewrite IH.
      destruct (path_eqb q p); reflexivity.
    + rewrite IH. destruct (path_eqb q k) eqn:Eq; [|reflexivity].
      apply path_eqb_eq in Eq. subst k. now rewrite Ek.
Qed.






(** *** Downloading a manifest *)




(** *** The finding aid *)

Lemma ensure_exists (w w' : World) :
  ensure_1_04_02_xml w = Ok w' -> exists_ (".", XML_FILENAME) w' = true.
Proof.
  intros H. unfold ensure_1_04_02_xml in H.
  destruct (exists_ (".", XML_FILENAME) w) eqn:E; simpl in H.
  - now injection H as <-.
  - destruct (get_content XML_DOWNLOAD_URL w) as [r w2]. bind_inv H.
    unfold exists_.
    destruct (lookup_write_file (".", XML_FILENAME) (".", XML_FILENAME) v w2 w' H)
      as [-> _].
    now rewrite path_eqb_refl.
Qed.

(** When [ensure_1_04_02_xml] returns, the finding aid is in the working
    directory, and a second call changes nothing: it makes no request.  A
    call that finds the file there changes nothing either. *)
Theorem ensure_1_04_02_xml_idempotent (w w' : World) :
  ensure_1_04_02_xml w = Ok w' ->
  exists_ (".", XML_FILENAME) w' = true /\
  ensure_1_04_02_xml w' = Ok w' /\
  (exists_ (".", XML_FILENAME) w = true -> w' = w).
Proof.
  intros H. pose proof (ensure_exists w w' H) as Hex.
  split; [exact Hex|]. split.
  - unfold ensure_1_04_02_xml. now rewrite Hex.
  - intros E. unfold ensure_1_04_02_xml in H. rewrite E in H. simpl in H. congruence.
Qed.

Example ensure_run : ensure_1_04_02_xml sample_world = Ok world_with_finding_aid.
Proof. vm_compute. reflexivity. Qed.

Lemma ensure_1_04_02_xml_idempotent_witness :
  exists_ (".", XML_FILENAME) world_with_finding_aid = true /\
  ensure_1_04_02_xml world_with_finding_aid = Ok world_with_finding_aid /\
  (exists_ (".", XML_FILENAME) sample_world = true -> world_with_finding_aid = sample_world).
Proof. exact (ensure_1_04_02_xml_idempotent sample_world world_with_finding_aid ensure_run). Defined.

(** *** Processing one annotation file *)








(** *** Correcting file names *)

Lemma rename_effects (p q : path) (w w' : World) :
  rename p q w = Ok w' ->
  dirs w' = dirs w /\ requested w' = requested w /\
  forall r, r <> p -> r <> q -> lookup r w' = lookup r w.
Proof.
  unfold rename. intros H.
  destruct (lookup p w) as [e|]; [|discriminate].
  destruct (path_eqb p q); [injection H as <-; auto|].
  assert (Hw : w' = with_entries w (Dict.set path_eqb q e (remove_entry p (entries w)))).
  { destruct (lookup q w) as [[c|]|], e; congruence. }
  subst w'. split; [reflexivity|]. split; [reflexivity|].
  intros r Hp Hq. unfold lookup. simpl.
  rewrite (DictFacts.get_set_other path_eqb path_eqb_eq) by congruence.
  rewrite get_remove_entry. now rewrite path_eqb_neq.
Qed.

Lemma rename_loop_spec (source_dir : string) (names : list string) :
  forall renamed w out w',
    Forall (fun n => Str.endswith ".xml" n = true) names ->
    rename_loop source_dir names renamed w = Ok (out, w') ->
    out = renamed ++ map (fun n => (source_dir, corrected_name n)) names /\
    same_but_xml_in source_dir w w' /\
    dirs w' = dirs w /\ requested w' = requested w.
Proof.
  induction names as [|name names IH]; intros renamed w out w' Hall H.
  - simpl in H. injection H as <- <-. rewrite app_nil_r.
    split; [reflexivity|]. split; [intros p _; reflexivity|]. auto.
  - inversion Hall as [|? ? Hx Hall']; subst.
    cbn [rename_loop] in H. cbn [map]. unfold corrected_name at 1.
    destruct (Str.isdigit (Str.take 4 name)) eqn:Ed; cbn [andb] in *.
    + destruct (String.get 4 name) as [c|] eqn:Eg.
      * destruct (Ascii.eqb c "_") eqn:Ec.
        -- apply Ascii.eqb_eq in Ec. subst c.
           pose proof (StrFacts.drop_prefix_xml name Hx Ed Eg) as Hnew.
           bind_inv H.
           destruct (rename_effects _ _ _ _ E) as (Hd & Hr & Hl).
           destruct (IH _ _ _ _ Hall' H) as (-> & Hs & Hd' & Hr').
           rewrite <- app_assoc. split; [reflexivity|]. split; [|split; congruence].
           intros p Hp. rewrite (Hs p Hp). apply Hl.
           ++ intros ->. cbn [fst snd] in Hp. destruct Hp as [Hp|Hp]; [now apply Hp | congruence].
           ++ intros ->. cbn [fst snd] in Hp. destruct Hp as [Hp|Hp]; [now apply Hp | congruence].
        -- destruct (IH _ _ _ _ Hall' H) as (-> & Hs & Hd' & Hr').
           rewrite <- app_assoc. auto.
      * destruct (IH _ _ _ _ Hall' H) as (-> & Hs & Hd' & Hr').
        rewrite <- app_assoc. auto.
    + destruct (IH _ _ _ _ Hall' H) as (-> & Hs & Hd' & Hr').
      rewrite <- app_assoc. auto.
Qed.

Lemma glob_xml_In (d : string) (w : World) (p : path) :
  In p (glob_xml d w) -> fst p = d /\ Str.endswith ".xml" (snd p) = true.
Proof.
  unfold glob_xml. destruct (can_list d w); [|intros []].
  intros Hp. apply filter_In in Hp. destruct Hp as [_ Hp].
  apply andb_true_iff in Hp. destruct Hp as [Hd Hx]. apply String.eqb_eq in Hd. auto.
Qed.

Lemma glob_xml_names (d : string) (w : World) :
  Forall (fun n => Str.endswith ".xml" n = true) (map snd (glob_xml d w)).
Proof.
  apply Forall_forall. intros n Hn. apply in_map_iff in Hn.
  destruct Hn as (p & <- & Hp). now apply glob_xml_In in Hp.
Qed.

Lemma rename_files_spec (source_dir : string) (w w' : World) (renamed : list path) :
  rename_files source_dir w = Ok (renamed, w') ->
  renamed = map (fun n => (source_dir, corrected_name n)) (map snd (glob_xml source_dir w)) /\
  same_but_xml_in source_dir w w' /\
  dirs w' = dirs w /\ requested w' = requested w.
Proof.
  unfold rename_files. intros H.
  exact (rename_loop_spec source_dir _ [] w renamed w' (glob_xml_names source_dir w) H).
Qed.

(** [rename_files] returns one path per [*.xml] entry of the directory, in
    the order of the listing, each under its corrected name.  It changes
    nothing but [*.xml] entries of that directory and makes no request. *)
Theorem rename_files_returns_corrected_names (source_dir : string) (w w' : World)
        (renamed : list path) :
  rename_files source_dir w = Ok (renamed, w') ->
  renamed = map (fun n => (source_dir, corrected_name n)) (map snd (glob_xml source_dir w)) /\
  same_but_xml_in source_dir w w' /\
  dirs w' = dirs w /\ requested w' = requested w.
Proof. apply rename_files_spec. Qed.

Example rename_files_run :
  rename_files "pages" sample_world = Ok (fst sample_renamed, snd sample_renamed).
Proof. vm_compute. reflexivity. Qed.

Lemma rename_files_returns_corrected_names_witness :
  fst sample_renamed
  = map (fun n => ("pages"%string, corrected_name n)) (map snd (glob_xml "pages" sample_world)) /\
  same_but_xml_in "pages" sample_world (snd sample_renamed) /\
  dirs (snd sample_renamed) = dirs sample_world /\
  requested (snd sample_renamed) = requested sample_world.
Proof.
  exact (rename_files_returns_corrected_names "pages" sample_world (snd sample_renamed)
           (fst sample_renamed) rename_files_run).
Defined.

(** *** The whole run *)








End DownloaderExtras.
